(** * httpclient: a shallow embedding of the Go package and its properties

    The package wraps [net/http]'s client: one GET per call, a status check,
    and the body handed back as bytes, a string, a stream, or decoded from
    JSON or XML; [Files] fetches several URLs in goroutines that report on a
    buffered channel.

    What lies outside the package is a parameter of the model:
    - the transport ([http.Client.Get]) is a function from the URL to either
      a response or the text of a [*url.Error];
    - the decoders of [encoding/json] and [encoding/xml] are functions from
      the body stream and the target to the updated target and an optional
      failure;
    - the scheduler of the goroutines of [Files] is a list of thread
      identifiers, and every statement about [Files] quantifies over it. *)

From Stdlib Require Import ZArith DecimalString Strings.Byte.
From stdpp Require Import base list strings.

Module httpclient.

(** ** Values of the package *)

Abbreviation bytes := (list byte).

(** [type Error struct { Message string; StatusCode int; URL string }] *)
Record Error := mkError { Message : string; StatusCode : Z; URL : string }.

(** [func (e *Error) Error() string] *)
Definition Error_Error (e : Error) : string := Message e.

(** A value of the interface type [error], by its dynamic type. *)
Inductive error :=
| HttpError (e : Error)                  (* [*Error], this package's type *)
| SyntaxError (msg : string) (Offset : Z) (* [*json.SyntaxError] *)
| OtherError (msg : string).             (* any other dynamic type *)

(** [err.Error()] *)
Definition error_text (e : error) : string :=
  match e with
  | HttpError e => Error_Error e
  | SyntaxError msg _ => msg
  | OtherError msg => msg
  end.

(** The type assertion of [err] to [*Error] succeeds. *)
Definition is_HttpError (e : error) : bool :=
  match e with HttpError _ => true | _ => false end.

(** The type assertion of [err] to [*json.SyntaxError] succeeds. *)
Definition is_SyntaxError (e : error) : bool :=
  match e with SyntaxError _ _ => true | _ => false end.

(** [type File struct { Name string; Data []byte }] *)
Record File := mkFile { Name : string; Data : bytes }.

(** ** The collaborators: transport, body stream, decoders *)

(** A response body ([io.ReadCloser]): the bytes it delivers and, when the
    stream breaks instead of reaching EOF, the text of the read error. *)
Record ReadCloser := mkBody { delivered : bytes; broken : option string }.

(** [ioutil.ReadAll]: the bytes read so far, and the error that stopped the
    read if there was one. *)
Definition ReadAll (b : ReadCloser) : bytes * option error :=
  (delivered b, OtherError <$> broken b).

(** The fields of [*http.Response] that the package reads.
    [resp_URL] is [resp.Request.URL.String()]: the URL of the request that
    obtained this response, as the transport reports it. *)
Record Response := mkResponse {
  resp_StatusCode : Z;
  resp_URL : string;
  resp_Body : ReadCloser
}.

(** [*http.Client]: [Get] either yields a response or fails with an error,
    which net/http always gives the dynamic type [*url.Error]. *)
Record http_Client := mkHttp { http_Get : string → Response + string }.

(** What a JSON decode can fail with. *)
Inductive json_failure :=
| JSyntax (msg : string) (offset : Z)  (* [*json.SyntaxError] *)
| JOther (msg : string).               (* type mismatch, read error, ... *)

Definition json_error (f : json_failure) : error :=
  match f with
  | JSyntax msg off => SyntaxError msg off
  | JOther msg => OtherError msg
  end.

(** [json.NewDecoder(body).Decode(v)] and [xml.NewDecoder(body).Decode(v)]
    for targets of type [V]: the target after the call and the failure,
    if any. *)
Record Decoders (V : Type) := mkDecoders {
  json_Decode : ReadCloser → V → V * option json_failure;
  xml_Decode : ReadCloser → V → V * option string
}.
Arguments json_Decode {V}.
Arguments xml_Decode {V}.

(** ** Effects: the requests issued and the bodies closed *)

Inductive event :=
| EvGet (url : string)     (* a GET was issued for [url] *)
| EvClose (url : string).  (* the body of the response to [url] was closed *)

(** A computation yields its result and the events it performed, in order. *)
Definition io (A : Type) : Type := A * list event.

Definition ret {A} (a : A) : io A := (a, []).

Definition bind {A B} (m : io A) (k : A → io B) : io B :=
  let (b, t') := k (fst m) in (b, snd m ++ t').

Definition emit (e : event) : io unit := (tt, [e]).

Notation "'let!' x ':=' m 'in' k" := (bind m (λ x, k))
  (at level 10, x name, m at level 200, k at level 200).

Definition result {A} (m : io A) : A := fst m.
Definition trace {A} (m : io A) : list event := snd m.

(** [defer resp.Body.Close()]: the close runs when the function returns. *)
Definition defer_Close {A} (url : string) (m : io A) : io A :=
  let! a := m in let! _ := emit (EvClose url) in ret a.

(** ** The client *)

(** [type Client struct { client *http.Client }] *)
Record Client := mkClient { client : http_Client }.

(** [func New(client *http.Client) *Client] *)
Definition New (client : http_Client) : Client := mkClient client.

(** [%d] of [fmt.Sprintf] on an [int]. *)
Definition itoa (n : Z) : string := NilZero.string_of_int (Z.to_int n).

(** [fmt.Sprintf("Get %s -> %d", url, status)] *)
Definition Sprintf_Get (url : string) (status : Z) : string :=
  "Get " +:+ url +:+ " -> " +:+ itoa status.

(** [func (c *Client) err(resp *http.Response, message string) error] *)
Definition Client_err (c : Client) (resp : Response) (message : string) : error :=
  let message :=
    if String.eqb message EmptyString then Sprintf_Get (resp_URL resp) (resp_StatusCode resp)
    else message in
  HttpError {| Message := message;
               StatusCode := resp_StatusCode resp;
               URL := resp_URL resp |}.

(** [func (c *Client) Get(url string)], returning a [*http.Response] and an [error] *)
Definition Client_Get (c : Client) (url : string) : io (Response + error) :=
  let! _ := emit (EvGet url) in
  ret (match http_Get (client c) url with
       | inl resp => inl resp
       | inr text => inr (OtherError text)
       end).

(** [func (c *Client) Bytes(url string) ([]byte, error)] *)
Definition Client_Bytes (c : Client) (url : string) : io (bytes * option error) :=
  let! r := Client_Get c url in
  match r with
  | inr err => ret ([], Some err)
  | inl resp =>
      defer_Close url
        (if negb (resp_StatusCode resp =? 200)%Z
         then ret ([], Some (Client_err c resp EmptyString))
         else ret (ReadAll (resp_Body resp)))
  end.

(** [func (c *Client) String(url string) (string, error)] *)
Definition Client_String (c : Client) (url : string) : io (string * option error) :=
  let! r := Client_Bytes c url in
  match r with
  | (_, Some err) => ret (EmptyString, Some err)
  | (bytes, None) => ret (String.string_of_list_byte bytes, None)
  end.

(** [func (c *Client) Reader(url string) (io.ReadCloser, error)]; the
    stream is [None] where the code returns a nil reader. *)
Definition Client_Reader (c : Client) (url : string)
  : io (option ReadCloser * option error) :=
  let! r := Client_Get c url in
  match r with
  | inr err => ret (None, Some err)
  | inl resp =>
      if negb (resp_StatusCode resp =? 200)%Z
      then
        let err := Client_err c resp EmptyString in
        let! _ := emit (EvClose url) in
        ret (None, Some err)
      else ret (Some (resp_Body resp), None)
  end.

Section Decoding.
Context {V : Type} (D : Decoders V).

  (** [func (c *Client) JSON(url string, v interface{}) error]; the target
      [v] is updated in place by the decoder, so it is returned with the
      error. *)
Definition Client_JSON (c : Client) (url : string) (v : V) : io (V * option error) :=
    let! r := Client_Get c url in
    match r with
    | inr err => ret (v, Some err)
    | inl resp =>
        defer_Close url
          (if negb (resp_StatusCode resp =? 200)%Z
           then ret (v, Some (Client_err c resp EmptyString))
           else
             let (v', f) := json_Decode D (resp_Body resp) v in
             let err := json_error <$> f in
             let err :=
               match err with
               | Some (SyntaxError _ _) =>
                   Some (Client_err c resp ("JSON syntax error at " +:+ url))
               | _ => err
               end in
             ret (v', err))
    end.

  (** [func (c *Client) XML(url string, v interface{}) error] *)
Definition Client_XML (c : Client) (url : string) (v : V) : io (V * option error) :=
    let! r := Client_Get c url in
    match r with
    | inr err => ret (v, Some err)
    | inl resp =>
        defer_Close url
          (if negb (resp_StatusCode resp =? 200)%Z
           then ret (v, Some (Client_err c resp EmptyString))
           else
             let (v', f) := xml_Decode D (resp_Body resp) v in
             ret (v', OtherError <$> f))
    end.
End Decoding.

(** ** Files: goroutines, the channel and the heap of files *)

(** A [*File] is nil ([None]) or the address of a [File]. Every address
    holds a [File]: a pointer of Go never dangles. Two elements of a
    [[]*File] may hold the same address. *)
Abbreviation loc := nat.
Abbreviation pointer := (option loc).
Definition heap := loc → File.

(** [f.Data = p] for the file at address [l]. *)
Definition store_Data (h : heap) (l : loc) (p : bytes) : heap :=
  λ l', if decide (l' = l) then {| Name := Name (h l); Data := p |} else h l'.

(** What the body of goroutine [i] does before its send. *)
Inductive outcome :=
| Panic                              (* a run-time panic: the process dies *)
| Report (h : heap) (e : option error) (deferred : list event).
    (* the heap it leaves, the value it is about to send on [ch], and what
       its deferred calls will do when it returns *)

(** The body of [go func(i int) { ... }(i)] up to its [ch <- ...]. The
    assignment [files[i].Data, err = ioutil.ReadAll(resp.Body)] stores
    through [files[i]] whether or not the read failed: [err] is looked at
    only afterwards. A panic after the [defer] still runs the deferred
    close. *)
Definition goroutine_body (c : Client) (urls : list string) (files : list pointer)
    (i : nat) (h : heap) : io outcome :=
  match urls !! i with
  | None => ret Panic                       (* [urls[i]]: index out of range *)
  | Some url =>
      let! r := Client_Get c url in
      match r with
      | inr err => ret (Report h (Some err) [])
      | inl resp =>
          if negb (resp_StatusCode resp =? 200)%Z
          then ret (Report h (Some (Client_err c resp EmptyString)) [EvClose url])
          else
            let (p, err) := ReadAll (resp_Body resp) in
            match files !! i with
            | Some (Some l) =>
                let h' := store_Data h l p in
                match err with
                | Some err =>
                    ret (Report h' (Some (Client_err c resp (error_text err)))
                           [EvClose url])
                | None => ret (Report h' None [EvClose url])
                end
            | _ =>                          (* nil pointer dereference *)
                let! _ := emit (EvClose url) in ret Panic
            end
      end
  end.

(** Where a goroutine stands. *)
Inductive goroutine :=
| Launched                                   (* started, body not yet run *)
| Sending (e : option error) (deferred : list event)  (* at [ch <- e] *)
| Finished.

(** Where the caller of [Files] stands. *)
Inductive caller :=
| Spawning (i : nat)            (* first loop, about to launch goroutine [i] *)
| Draining (k : nat)            (* second loop, [k] iterations left *)
| Returned (e : option error).  (* [Files] has returned [e] *)

Record state := mkState {
  st_heap : heap;
  st_ch : list (option error);   (* values buffered in [ch], oldest first *)
  st_cap : nat;                  (* capacity of [ch] *)
  st_tasks : list goroutine;     (* the goroutines launched so far *)
  st_main : caller;
  st_panicked : bool;            (* some goroutine panicked *)
  st_trace : list event
}.

Inductive thread := Caller | Goroutine (i : nat).

Section Files.
Variables (c : Client) (urls : list string) (files : list pointer).

  (** [ch := make(chan error, len(files))], before the first loop. *)
Definition Files_start (h : heap) : state :=
    mkState h [] (length files) [] (Spawning 0) false [].

  (** One step of the caller; [None] when it cannot move (blocked on the
      receive, or returned). *)
Definition step_caller (s : state) : option state :=
    match st_main s with
    | Spawning i =>
        if decide (i < length files)
        then Some (mkState (st_heap s) (st_ch s) (st_cap s)
                     (st_tasks s ++ [Launched]) (Spawning (S i))
                     (st_panicked s) (st_trace s))
        else Some (mkState (st_heap s) (st_ch s) (st_cap s) (st_tasks s)
                     (Draining (length files)) (st_panicked s) (st_trace s))
    | Draining 0 =>
        Some (mkState (st_heap s) (st_ch s) (st_cap s) (st_tasks s)
                (Returned None) (st_panicked s) (st_trace s))
    | Draining (S k) =>
        match st_ch s with
        | [] => None
        | Some err :: q =>
            Some (mkState (st_heap s) q (st_cap s) (st_tasks s)
                    (Returned (Some err)) (st_panicked s) (st_trace s))
        | None :: q =>
            Some (mkState (st_heap s) q (st_cap s) (st_tasks s)
                    (Draining k) (st_panicked s) (st_trace s))
        end
    | Returned _ => None
    end.

  (** One step of goroutine [i]: its body up to the send, then the send
      (which waits while the buffer is full) and its return. *)
Definition step_goroutine (i : nat) (s : state) : option state :=
    match st_tasks s !! i with
    | Some Launched =>
        match goroutine_body c urls files i (st_heap s) with
        | (Panic, t) =>
            Some (mkState (st_heap s) (st_ch s) (st_cap s) (st_tasks s)
                    (st_main s) true (st_trace s ++ t))
        | (Report h e d, t) =>
            Some (mkState h (st_ch s) (st_cap s)
                    (<[i := Sending e d]> (st_tasks s))
                    (st_main s) (st_panicked s) (st_trace s ++ t))
        end
    | Some (Sending e d) =>
        if decide (length (st_ch s) < st_cap s)
        then Some (mkState (st_heap s) (st_ch s ++ [e]) (st_cap s)
                     (<[i := Finished]> (st_tasks s))
                     (st_main s) (st_panicked s) (st_trace s ++ d))
        else None
    | _ => None
    end.

  (** A panic ends the process: nothing moves afterwards. *)
Definition step (t : thread) (s : state) : option state :=
    if st_panicked s then None
    else match t with
         | Caller => step_caller s
         | Goroutine i => step_goroutine i s
         end.

  (** The scheduler picks threads in turn; a pick that cannot move is
      passed over. *)
Definition run (sched : list thread) (s : state) : state :=
    foldl (λ s t, default s (step t s)) s sched.

  (** [func (c *Client) Files(urls []string, files []*File) error], under
      the schedule [sched], from the heap [h]. *)
Definition Client_Files (h : heap) (sched : list thread) : state :=
    run sched (Files_start h).
End Files.

(** [func (c *Client) Download(urls []string, files []*File) error] *)
Definition Client_Download (c : Client) (urls : list string) (files : list pointer)
    (h : heap) (sched : list thread) : state :=
  Client_Files c urls files h sched.

(** ** Vocabulary of the statements *)

(** The error of a failed status check: [c.err] with the empty message,
    spelled out for the URL [url] and the status [status]. *)
Definition status_error (url : string) (status : Z) : error :=
  HttpError {| Message := Sprintf_Get url status; StatusCode := status; URL := url |}.

(** [sub] occurs in [s] ([strings.Contains(s, sub)]). *)
Fixpoint contains (s sub : string) : bool :=
  String.prefix sub s ||
  match s with
  | EmptyString => false
  | String _ s' => contains s' sub
  end.

(** The GET for [url] is answered, with a status other than 200. *)
Definition answered_not_200 (c : Client) (url : string) : Prop :=
  ∃ resp, http_Get (client c) url = inl resp ∧ resp_StatusCode resp ≠ 200%Z.

(** The GET for [url] is answered with status 200 and the JSON decoder
    rejects the body with a [*json.SyntaxError]. *)
Definition rejected_as_JSON {V} (D : Decoders V) (c : Client) (url : string) (v : V) : Prop :=
  ∃ resp msg off, http_Get (client c) url = inl resp ∧
    resp_StatusCode resp = 200%Z ∧
    snd (json_Decode D (resp_Body resp) v) = Some (JSyntax msg off).

(** In a batch, an error that comes from the fetch of one of the URLs:
    the transport's own error, or an [Error] with the status and the request
    URL of the response to that URL. *)
Definition batch_error (c : Client) (urls : list string) (e : error) : Prop :=
  ∃ i url, urls !! i = Some url ∧
    match http_Get (client c) url with
    | inr text => e = OtherError text
    | inl resp => ∃ m, e = HttpError {| Message := m;
                                        StatusCode := resp_StatusCode resp;
                                        URL := resp_URL resp |}
    end.

(** Every URL of the batch is answered with status 200 and a body that
    reads to its end. *)
Definition all_succeed (c : Client) (urls : list string) : Prop :=
  ∀ i url, urls !! i = Some url →
    ∃ resp, http_Get (client c) url = inl resp ∧
            resp_StatusCode resp = 200%Z ∧
            broken (resp_Body resp) = None.

(** The number of goroutines that have sent and returned. *)
Fixpoint count_Finished (l : list goroutine) : nat :=
  match l with
  | [] => 0
  | Finished :: l => S (count_Finished l)
  | _ :: l => count_Finished l
  end.

(** The steps a state still has in it: two per goroutine (body, send), one
    per iteration of either loop of the caller, and one to leave each. *)
Definition goroutine_fuel (g : goroutine) : nat :=
  match g with Launched => 2 | Sending _ _ => 1 | Finished => 0 end.

Definition caller_fuel (n : nat) (m : caller) : nat :=
  match m with
  | Spawning i => 3 * (n - i) + n + 2
  | Draining k => k + 1
  | Returned _ => 0
  end.

Definition fuel (n : nat) (s : state) : nat :=
  if st_panicked s then 0
  else caller_fuel n (st_main s) + sum_list (goroutine_fuel <$> st_tasks s).

(** The bookkeeping of [Files] over [n] files: the capacity of the
    channel, the goroutines launched, and the sends not yet received. *)
Definition wf (n : nat) (s : state) : Prop :=
  st_cap s = n ∧
  length (st_ch s) ≤ count_Finished (st_tasks s) ∧
  match st_main s with
  | Spawning i =>
      length (st_tasks s) = i ∧ i ≤ n ∧
      length (st_ch s) = count_Finished (st_tasks s)
  | Draining k =>
      length (st_tasks s) = n ∧ k ≤ n ∧
      length (st_ch s) + (n - k) = count_Finished (st_tasks s)
  | Returned _ => length (st_tasks s) = n
  end.

(** The file of slot [i] holds what [Bytes] returns for [urls[i]]. *)
Definition filled (c : Client) (urls : list string) (files : list pointer)
    (h : heap) (i : nat) : Prop :=
  ∃ url l, urls !! i = Some url ∧ files !! i = Some (Some l) ∧
           Data (h l) = fst (result (Client_Bytes c url)).

(** A batch in which nothing has gone wrong so far. *)
Definition all_well (c : Client) (urls : list string) (files : list pointer)
    (s : state) : Prop :=
  st_panicked s = false ∧
  (∀ i, match st_tasks s !! i with
        | Some (Sending e _) => e = None ∧ filled c urls files (st_heap s) i
        | Some Finished => filled c urls files (st_heap s) i
        | _ => True
        end) ∧
  Forall (λ e, e = None) (st_ch s) ∧
  match st_main s with
  | Returned r => r = None ∧ count_Finished (st_tasks s) = length files
  | _ => True
  end.

(** Every error in flight comes from the fetch of one of the URLs. *)
Definition errors_explained (c : Client) (urls : list string) (s : state) : Prop :=
  (∀ i e d, st_tasks s !! i = Some (Sending (Some e) d) → batch_error c urls e) ∧
  (∀ e, Some e ∈ st_ch s → batch_error c urls e) ∧
  (∀ e, st_main s = Returned (Some e) → batch_error c urls e).

(** The states of a batch without files: the caller leaves the first loop,
    leaves the second, and has returned nil. *)
Definition empty_batch (h : heap) (k : nat) : state :=
  mkState h [] 0 [] (match k with
                     | 0 => Spawning 0
                     | 1 => Draining 0
                     | _ => Returned None
                     end) false [].

(** The picks of a schedule that move a thread. *)
Fixpoint moves (c : Client) (urls : list string) (files : list pointer)
    (sched : list thread) (s : state) : nat :=
  match sched with
  | [] => 0
  | t :: sched =>
      match step c urls files t s with
      | Some s' => S (moves c urls files sched s')
      | None => moves c urls files sched s
      end
  end.

(** How often the scheduler picks the caller. *)
Fixpoint caller_steps (sched : list thread) : nat :=
  match sched with
  | [] => 0
  | Caller :: sched => S (caller_steps sched)
  | Goroutine _ :: sched => caller_steps sched
  end.

(** ** The functions of the package, on the default client

    [var client = &Client{client: &http.Client{}}]: the zero [http.Client]
    is the network of the process, the parameter [net]. *)
Module Package.
Section Package.
Variable net : http_Client.

Definition client : Client := mkClient net.

Definition Get (url : string) := Client_Get client url.
Definition Bytes (url : string) := Client_Bytes client url.
Definition String (url : string) := Client_String client url.
Definition Reader (url : string) := Client_Reader client url.

Section Decoding.
Context {V : Type} (D : Decoders V).
Definition JSON (url : string) (v : V) := Client_JSON D client url v.
    (** [func XML(url string, v interface{}) error { return client.JSON(url, v) }] *)
Definition XML (url : string) (v : V) := Client_JSON D client url v.
End Decoding.

Definition Files (urls : list string) (files : list pointer) :=
    Client_Files client urls files.
Definition Download (urls : list string) (files : list pointer) :=
    Client_Files client urls files.
End Package.
End Package.

(** ** Fixtures: a small server and stand-in decoders

    The fixture server answers a handful of URLs; every other URL of its
    host is a 404, and any other host cannot be resolved. The decoders
    stand in for [encoding/json] and [encoding/xml] on targets of type
    [string], for the small bodies the fixtures serve. The XML stand-in
    takes a body that starts with [<] for one element and decodes it to
    its character data; any other body has no element, which is [EOF].
    The JSON stand-in decides by the first byte of the body what value
    begins there: only a JSON string decodes into a [string]; an object,
    array, number or boolean is a type mismatch; a byte that begins no
    value is a syntax error. *)
Module Fixture.
Definition text (s : string) : bytes := String.list_byte_of_string s.

Definition url_a : string := "http://files.example/a.txt".
Definition url_b : string := "http://files.example/b.txt".
Definition url_old : string := "http://files.example/old".
Definition url_new : string := "http://files.example/new".
Definition url_feed : string := "http://files.example/feed".
Definition url_cut : string := "http://files.example/cut".
Definition url_down : string := "http://down.example/".

(** The three URLs of the package's own download example. *)
Definition url_golang : string := "http://www.golang.org".
Definition url_clojure : string := "http://www.clojure.org".
Definition url_erlang : string := "http://www.erlang.org".

Definition no_such_host : string :=
    "Get http://down.example/: dial tcp: lookup down.example: no such host".

Definition server : http_Client :=
    mkHttp (λ url,
      if String.eqb url url_a then
        inl (mkResponse 200 url (mkBody (text "alpha") None))
      else if String.eqb url url_b then
        inl (mkResponse 200 url (mkBody (text "bravo") None))
      else if String.eqb url url_old then
        (* redirected to [url_new], which does not exist *)
        inl (mkResponse 404 url_new (mkBody (text "not found") None))
      else if String.eqb url url_feed then
        inl (mkResponse 200 url (mkBody (text "<a>1</a>") None))
      else if String.eqb url url_cut then
        inl (mkResponse 200 url (mkBody (text "par") (Some "unexpected EOF"%string)))
      else if String.eqb url url_golang then
      inl (mkResponse 200 url (mkBody (text "<html>Go</html>") None))
    else if String.eqb url url_clojure then
      inl (mkResponse 200 url (mkBody (text "<html>Clojure</html>") None))
    else if String.eqb url url_erlang then
      inl (mkResponse 200 url (mkBody (text "<html>Erlang</html>") None))
    else if String.prefix "http://files.example/" url then
        inl (mkResponse 404 url (mkBody (text "not found") None))
      else inr no_such_host).

Definition starts_with_lt (b : ReadCloser) : bool :=
    match delivered b with
    | x3c :: _ => true
    | _ => false
    end.

(** The character data of a document: what lies outside its tags. *)
Fixpoint chardata (in_tag : bool) (l : bytes) : bytes :=
  match l with
  | [] => []
  | x3c :: l => chardata true l
  | x3e :: l => chardata false l
  | b :: l => if in_tag then chardata in_tag l else b :: chardata in_tag l
  end.

(** The bytes up to the closing quote of a JSON string. *)
Fixpoint until_quote (l : bytes) : bytes :=
  match l with
  | [] => []
  | x22 :: _ => []
  | b :: l => b :: until_quote l
  end.

Definition quoted (b : byte) : string :=
  "'" +:+ String (Ascii.ascii_of_byte b) EmptyString +:+ "'".

Definition mismatch (kind : string) : json_failure :=
  JOther ("json: cannot unmarshal " +:+ kind +:+ " into Go value of type string").

(** The literal [name] has begun and should go on with the byte [want];
    [matched] is the verdict when it does. *)
Definition json_literal (v : string) (name : string) (want : byte)
    (rest : bytes) (matched : string * option json_failure)
  : string * option json_failure :=
  match rest with
  | [] => (v, Some (JOther "unexpected EOF"))
  | b :: _ =>
      if Byte.eqb b want then matched
      else (v, Some (JSyntax ("invalid character " +:+ quoted b +:+ " in literal " +:+
                              name +:+ " (expecting " +:+ quoted want +:+ ")") 2))
  end.

Definition json_stand_in (b : ReadCloser) (v : string) : string * option json_failure :=
  match delivered b with
  | [] => (v, Some (JOther "EOF"))
  | x22 :: l => (String.string_of_list_byte (until_quote l), None)
  | x7b :: _ => (v, Some (mismatch "object"))
  | x5b :: _ => (v, Some (mismatch "array"))
  | x2d :: _ | x30 :: _ | x31 :: _ | x32 :: _ | x33 :: _ | x34 :: _
  | x35 :: _ | x36 :: _ | x37 :: _ | x38 :: _ | x39 :: _ =>
      (v, Some (mismatch "number"))
  | x74 :: l => json_literal v "true" x72 l (v, Some (mismatch "bool"))
  | x66 :: l => json_literal v "false" x61 l (v, Some (mismatch "bool"))
  | x6e :: l => json_literal v "null" x75 l (v, None)
  | c :: _ =>
      (v, Some (JSyntax ("invalid character " +:+ quoted c +:+
                         " looking for beginning of value") 1))
  end.

Definition xml_stand_in (b : ReadCloser) (v : string) : string * option string :=
  if starts_with_lt b
  then (String.string_of_list_byte (chardata false (delivered b)), None)
  else (v, Some "EOF"%string).

Definition decoders : Decoders string :=
  mkDecoders string json_stand_in xml_stand_in.

  (** A heap of files that are still empty. *)
Definition blank : heap := λ _, mkFile EmptyString [].

(** A transport that answers every URL with 200 and an empty body. *)
Definition always_ok : http_Client :=
    mkHttp (λ url, inl (mkResponse 200 url (mkBody [] None))).

(** A transport whose bodies break after three bytes with an error that
    has no text ([errors.New] of the empty string). *)
Definition mute : http_Client :=
  mkHttp (λ url, inl (mkResponse 200 url (mkBody (text "par") (Some EmptyString)))).
End Fixture.

(** ** What a nil report stands for, and the example programs *)

(** Goroutine [i] has a URL and a file, its GET is answered with 200, and
    the body reads to its end. *)
Definition fetched_ok (c : Client) (urls : list string) (files : list pointer)
    (i : nat) : Prop :=
  ∃ url resp l, urls !! i = Some url ∧ files !! i = Some (Some l) ∧
    http_Get (client c) url = inl resp ∧
    resp_StatusCode resp = 200%Z ∧
    broken (resp_Body resp) = None.

(** An error is waiting in the channel, or the caller has returned one. *)
Definition error_in_flight (s : state) : Prop :=
  (∃ e, Some e ∈ st_ch s) ∨ (∃ e, st_main s = Returned (Some e)).

(** Every nil that a goroutine sends stands for a fetch that succeeded, and
    the caller returns nil only when all of them did. *)
Definition nil_accounted (c : Client) (urls : list string) (files : list pointer)
    (s : state) : Prop :=
  (∀ i d, st_tasks s !! i = Some (Sending None d) → fetched_ok c urls files i) ∧
  (∀ i, st_tasks s !! i = Some Finished →
        fetched_ok c urls files i ∨ error_in_flight s) ∧
  (st_main s = Returned None →
     count_Finished (st_tasks s) = length files ∧
     ∀ i, i < length files → fetched_ok c urls files i).

(** A goroutine whose fetch succeeds has filled its slot once its body has
    run. *)
Definition slots_kept (c : Client) (urls : list string) (files : list pointer)
    (s : state) : Prop :=
  ∀ i g, st_tasks s !! i = Some g → g ≠ Launched →
         fetched_ok c urls files i → filled c urls files (st_heap s) i.

(** How far a run of an example program has come. *)
Inductive exit :=
| Running                 (* [main] has not come back from the package *)
| Fatal (err : error)     (* [log.Fatal(err)] *)
| Printed (line : string). (* [fmt.Println] wrote [line] and [main] ended *)

Module Examples.
(** [main] of the download example:
    [urls := []string{...}; var files []*httpclient.File;
     err := httpclient.Download(urls, files)], then [log.Fatal(err)] or
    [fmt.Println("Download files success!")]. *)
Definition urls : list string :=
  ["http://www.golang.org"; "http://www.clojure.org"; "http://www.erlang.org"].

Definition download (net : http_Client) (h : heap) (sched : list thread)
  : exit * list event :=
  let s := Package.Download net urls [] h sched in
  (match st_main s with
   | Returned (Some err) => Fatal err
   | Returned None => Printed "Download files success!"
   | _ => Running
   end, st_trace s).

(** [main] of the string example:
    [content, err := httpclient.String(url)], then [log.Fatal(err)] or
    [fmt.Println("%s", content)]; [Println] does not format, it writes its
    operands with a space between them. *)
Definition string_main (net : http_Client) (url : string) : exit * list event :=
  let! r := Package.String net url in
  match r with
  | (_, Some err) => ret (Fatal err)
  | (content, None) => ret (Printed ("%s" +:+ " " +:+ content))
  end.
End Examples.

(** ** Single requests *)

Ltac unfold_io :=
  unfold result, trace, Client_String, Client_Bytes, Client_Reader, Client_JSON,
    Client_XML, defer_Close, Client_Get, bind, ret, emit; simpl.

(** Case analysis along the paths of an operation: the status check, the
    decoders' verdicts, the end of the body stream. *)
Ltac case_paths :=
  repeat match goal with
         | |- context [negb ?b] => destruct b; simpl
         | |- context [json_Decode ?d ?b ?v] =>
             destruct (json_Decode d b v) as [? [[]|]]; simpl
         | |- context [xml_Decode ?d ?b ?v] =>
             destruct (xml_Decode d b v) as [? []]; simpl
         | |- context [broken ?b] => destruct (broken b); simpl
         end.

Lemma eqb_200_false (n : Z) : n ≠ 200%Z → (n =? 200)%Z = false.
Proof. intros H. by apply Z.eqb_neq. Qed.

Lemma Client_err_default (c : Client) (resp : Response) :
  Client_err c resp EmptyString = status_error (resp_URL resp) (resp_StatusCode resp).
Proof. reflexivity. Qed.

Lemma Client_err_message (c : Client) (resp : Response) (message : string) :
  message ≠ EmptyString →
  Client_err c resp message =
    HttpError {| Message := message; StatusCode := resp_StatusCode resp;
                 URL := resp_URL resp |}.
Proof.
  intros H. unfold Client_err.
  destruct (String.eqb_spec message EmptyString) as [->|_]; [done|reflexivity].
Qed.

Lemma prefix_refl (s : string) : String.prefix s s = true.
Proof. induction s as [|a s IH]; simpl; [done|]. by destruct (Ascii.ascii_dec a a). Qed.

Lemma contains_refl (s : string) : contains s s = true.
Proof.
  destruct s as [|a s]; [reflexivity|].
  change (String.prefix (String a s) (String a s) || contains s (String a s) = true).
  by rewrite prefix_refl.
Qed.

Lemma contains_app (p s : string) : contains (p +:+ s) s = true.
Proof.
  induction p as [|a p IH]; simpl.
  - apply contains_refl.
  - rewrite IH. apply orb_true_r.
Qed.

Section SingleRequest.
Context {V : Type} (D : Decoders V).
Variables (c : Client) (url : string) (v : V).

  (** The package-level [XML] is the client's [JSON], not its [XML]. *)
Lemma Package_XML_is_JSON (net : http_Client) :
    Package.XML net D url v = Client_JSON D (Package.client net) url v.
Proof. reflexivity. Qed.

  (** The other functions of the package are the methods of the default
      client. *)
Lemma Package_delegates (net : http_Client) :
    Package.Bytes net url = Client_Bytes (Package.client net) url ∧
    Package.String net url = Client_String (Package.client net) url ∧
    Package.Reader net url = Client_Reader (Package.client net) url ∧
    Package.JSON net D url v = Client_JSON D (Package.client net) url v ∧
    (∀ urls files, Package.Download net urls files =
                   Client_Files (Package.client net) urls files).
Proof. by split_and!. Qed.

  (** Every single-request operation issues exactly one GET, for [url],
      before anything else. *)
Lemma one_GET_each :
    ∀ t, t ∈ [trace (Client_Bytes c url); trace (Client_String c url);
              trace (Client_Reader c url); trace (Client_JSON D c url v);
              trace (Client_XML D c url v)] →
         t = [EvGet url] ∨ t = [EvGet url; EvClose url].
Proof.
    intros t Ht.
    repeat (apply elem_of_cons in Ht as [->|Ht]); [..|by apply elem_of_nil in Ht];
      unfold_io; destruct (http_Get (client c) url) as [resp|msg]; simpl;
      case_paths; auto.
Qed.

  (** C2 (as amended). When the GET is answered with a status other than
      200, each of Bytes, String, Reader, JSON and XML fails with an [Error]
      that carries that status, the URL of the request that obtained the
      response ([resp.Request.URL.String()]) and the message
      "Get {that URL} -> {status}"; the result returned with it is the zero
      value (the target is left as it was). Where the transport reports the
      request URL as it was asked for, that URL is the requested one. *)
Theorem C2_status_error (resp : Response) :
    http_Get (client c) url = inl resp →
    resp_StatusCode resp ≠ 200%Z →
    let e := status_error (resp_URL resp) (resp_StatusCode resp) in
    result (Client_Bytes c url) = ([], Some e) ∧
    result (Client_String c url) = (EmptyString, Some e) ∧
    result (Client_Reader c url) = (None, Some e) ∧
    result (Client_JSON D c url v) = (v, Some e) ∧
    result (Client_XML D c url v) = (v, Some e) ∧
    (resp_URL resp = url → e = status_error url (resp_StatusCode resp)).
Proof.
    intros Hget Hst e. unfold_io. rewrite Hget. simpl.
    rewrite (eqb_200_false _ Hst). simpl. repeat split. by intros <-.
Qed.

  (** C3 (as amended). When the GET is answered with status 200 and the
      JSON decoder rejects the body with a syntax error, JSON fails with an
      [Error] whose message is "JSON syntax error at {url}" (it includes the
      requested URL; the status code is not part of it), whose StatusCode is
      the status received and whose URL is that of the response's request. *)
Theorem C3_JSON_syntax_error (resp : Response) (v' : V) (msg : string) (off : Z) :
    http_Get (client c) url = inl resp →
    resp_StatusCode resp = 200%Z →
    json_Decode D (resp_Body resp) v = (v', Some (JSyntax msg off)) →
    result (Client_JSON D c url v) =
      (v', Some (HttpError {| Message := "JSON syntax error at " +:+ url;
                             StatusCode := resp_StatusCode resp;
                             URL := resp_URL resp |})) ∧
    contains ("JSON syntax error at " +:+ url) url = true.
Proof.
    intros Hget Hst Hdec. split; [|apply contains_app].
    unfold_io. rewrite Hget. simpl. rewrite Hst. simpl. rewrite Hdec. simpl.
    by rewrite <- Hst.
Qed.

  (** C4. After a 200 answer, a decode failure that is not a JSON syntax
      error is returned as the decoder gave it, and it is not an [Error]:
      so for every failure of the JSON decoder other than a syntax error,
      and for every failure of the XML decoder. A JSON syntax error is the
      one failure that is turned into an [Error]. *)
Theorem C4_decode_errors_unwrapped (resp : Response) :
    http_Get (client c) url = inl resp →
    resp_StatusCode resp = 200%Z →
    (∀ v' f, json_Decode D (resp_Body resp) v = (v', Some f) →
       if is_SyntaxError (json_error f)
       then ∃ e, result (Client_JSON D c url v) = (v', Some (HttpError e))
       else result (Client_JSON D c url v) = (v', Some (json_error f)) ∧
            is_HttpError (json_error f) = false) ∧
    (∀ v' msg, xml_Decode D (resp_Body resp) v = (v', Some msg) →
       result (Client_XML D c url v) = (v', Some (OtherError msg)) ∧
       is_HttpError (OtherError msg) = false).
Proof.
    intros Hget Hst. split.
    - intros v' f Hdec. unfold_io. rewrite Hget. simpl. rewrite Hst. simpl.
      rewrite Hdec. destruct f; simpl; eauto.
    - intros v' msg Hdec. unfold_io. rewrite Hget. simpl. rewrite Hst. simpl.
      by rewrite Hdec.
Qed.

  (** The error of a single-request operation is an [Error] exactly when
      the status check failed or, for JSON, the decoder reported a syntax
      error. *)
Lemma Bytes_error (p : bytes) (e : error) :
    result (Client_Bytes c url) = (p, Some e) →
    (is_HttpError e = true ↔ answered_not_200 c url) ∧
    (p = [] ∨ ∃ resp text, http_Get (client c) url = inl resp ∧
                broken (resp_Body resp) = Some text ∧
                e = OtherError text ∧ p = delivered (resp_Body resp)).
Proof.
    unfold answered_not_200. unfold_io.
    destruct (http_Get (client c) url) as [resp|text] eqn:Hget; simpl.
    - destruct (Z.eqb_spec (resp_StatusCode resp) 200) as [Hst|Hst]; simpl.
      + unfold ReadAll. destruct (broken (resp_Body resp)) as [text|] eqn:Hb;
          simpl; intros [= <- <-]; split.
        * split; [done|]. intros (r & [= <-] & Hne). done.
        * right. by exists resp, text.
      + intros [= <- <-]. split; [|by left]. split; [|done]. intros _. by exists resp.
    - intros [= <- <-]. split; [|by left]. split; [done|]. by intros (r & [=] & _).
Qed.

Lemma JSON_error (v' : V) (e : error) :
    result (Client_JSON D c url v) = (v', Some e) →
    (is_HttpError e = true ↔ answered_not_200 c url ∨ rejected_as_JSON D c url v).
Proof.
    unfold answered_not_200, rejected_as_JSON. unfold_io.
    destruct (http_Get (client c) url) as [resp|text] eqn:Hget; simpl.
    - destruct (Z.eqb_spec (resp_StatusCode resp) 200) as [Hst|Hst]; simpl.
      + destruct (json_Decode D (resp_Body resp) v) as [w [[m off|m]|]] eqn:Hdec;
          simpl; intros [= <- <-]; simpl.
        * split; [|done]. intros _. right. exists resp, m, off.
          by rewrite Hdec.
        * split; [done|]. intros [(r & [= <-] & Hne)|(r & m' & off & [= <-] & _ & Hs)];
            [done|]. by rewrite Hdec in Hs.
      + intros [= <- <-]. split; [|done]. intros _. left. by exists resp.
    - intros [= <- <-]. split; [done|].
      by intros [(r & [=] & _)|(r & m' & off & [=] & _)].
Qed.

Lemma XML_error (v' : V) (e : error) :
    result (Client_XML D c url v) = (v', Some e) →
    (is_HttpError e = true ↔ answered_not_200 c url).
Proof.
    unfold answered_not_200. unfold_io.
    destruct (http_Get (client c) url) as [resp|text] eqn:Hget; simpl.
    - destruct (Z.eqb_spec (resp_StatusCode resp) 200) as [Hst|Hst]; simpl.
      + destruct (xml_Decode D (resp_Body resp) v) as [w [m|]] eqn:Hdec;
          simpl; intros [= <- <-]; simpl.
        split; [done|]. by intros (r & [= <-] & Hne).
      + intros [= <- <-]. split; [|done]. intros _. by exists resp.
    - intros [= <- <-]. split; [done|]. by intros (r & [=] & _).
Qed.
End SingleRequest.

(** ** Batches: lists of goroutines *)

Lemma count_Finished_le (l : list goroutine) : count_Finished l ≤ length l.
Proof. induction l as [|[] l IH]; simpl; lia. Qed.

Lemma count_Finished_snoc (l : list goroutine) :
  count_Finished (l ++ [Launched]) = count_Finished l.
Proof. induction l as [|[] l IH]; simpl; lia. Qed.

(** Replacing a goroutine that has not finished. *)
Lemma count_Finished_insert (l : list goroutine) (i : nat) (g g' : goroutine) :
  l !! i = Some g → g ≠ Finished →
  count_Finished (<[i := g']> l) =
    count_Finished l + (if g' is Finished then 1 else 0).
Proof.
  revert i. induction l as [|x l IH]; intros [|i] Hi Hg; simplify_eq/=.
  - destruct g, g'; simpl; try done; lia.
  - rewrite (IH i Hi Hg). destruct x; simpl; lia.
Qed.

Lemma count_Finished_all (l : list goroutine) (i : nat) :
  count_Finished l = length l → i < length l → l !! i = Some Finished.
Proof.
  revert i. induction l as [|x l IH]; intros i Hc Hi; simpl in *; [lia|].
  pose proof (count_Finished_le l).
  destruct x; try lia. destruct i as [|i]; [done|]. simpl. apply IH; lia.
Qed.

Lemma count_Finished_pending (l : list goroutine) :
  count_Finished l < length l → ∃ i g, l !! i = Some g ∧ g ≠ Finished.
Proof.
  induction l as [|x l IH]; simpl; [lia|]. intros Hc.
  destruct x; try (by exists 0; eexists; split; [reflexivity|]).
  destruct IH as (i & g & Hi & Hg); [lia|]. by exists (S i), g.
Qed.

Lemma count_Finished_lt (l : list goroutine) (i : nat) (g : goroutine) :
  l !! i = Some g → g ≠ Finished → count_Finished l < length l.
Proof.
  revert i. induction l as [|x l IH]; intros [|i] Hi Hg; simplify_eq/=.
  - pose proof (count_Finished_le l). destruct g; [lia..|done].
  - specialize (IH i Hi Hg). destruct x; lia.
Qed.

Lemma fuel_insert (l : list goroutine) (i : nat) (g g' : goroutine) :
  l !! i = Some g →
  sum_list (goroutine_fuel <$> <[i := g']> l) + goroutine_fuel g =
    sum_list (goroutine_fuel <$> l) + goroutine_fuel g'.
Proof.
  revert i. induction l as [|x l IH]; intros [|i] Hi; simplify_eq/=; [lia|].
  specialize (IH i Hi). lia.
Qed.

Lemma fuel_lookup (l : list goroutine) (i : nat) (g : goroutine) :
  l !! i = Some g → goroutine_fuel g ≤ sum_list (goroutine_fuel <$> l).
Proof.
  revert i. induction l as [|x l IH]; intros [|i] Hi; simplify_eq/=; [lia|].
  specialize (IH i Hi). lia.
Qed.

Lemma fuel_snoc (l : list goroutine) :
  sum_list (goroutine_fuel <$> (l ++ [Launched])) =
    sum_list (goroutine_fuel <$> l) + 2.
Proof. induction l as [|x l IH]; csimpl; lia. Qed.

(** ** Batches: the steps of [Files] *)

(** Case analysis on a step that was taken. *)
Ltac step_inv H :=
  match goal with
  | |- ?G =>
      let P := fresh "P" in
      set (P := G);
      unfold step, step_caller, step_goroutine in H;
      repeat case_match; simplify_eq; subst P; simpl in *
  end.

Section Batch.
Variables (c : Client) (urls : list string) (files : list pointer).

Local Abbreviation step := (step c urls files).
Local Abbreviation run := (run c urls files).

Lemma run_nil (s : state) : run [] s = s.
Proof. reflexivity. Qed.

Lemma run_cons (t : thread) (sched : list thread) (s : state) :
  run (t :: sched) s = run sched (default s (step t s)).
Proof. reflexivity. Qed.

Lemma run_app (sched sched' : list thread) (s : state) :
  run (sched ++ sched') s = run sched' (run sched s).
Proof. apply foldl_app. Qed.

(** What every step preserves holds throughout a run. *)
Lemma run_invariant (P : state → Prop) :
  (∀ t s s', P s → step t s = Some s' → P s') →
  ∀ sched s, P s → P (run sched s).
Proof.
  intros Hstep sched. induction sched as [|t sched IH]; intros s Hs; [done|].
  rewrite run_cons. apply IH. destruct (step t s) as [s'|] eqn:Ht; simpl; eauto.
Qed.

Lemma wf_start (h : heap) : wf (length files) (Files_start files h).
Proof. unfold wf. simpl. repeat split; lia. Qed.

Lemma wf_step (t : thread) (s s' : state) :
  wf (length files) s → step t s = Some s' → wf (length files) s'.
Proof.
  unfold wf. intros (Hcap & Hle & Hmain) Hstep. step_inv Hstep.
  all: rewrite ?length_insert, ?length_app, ?count_Finished_snoc.
  all: try (erewrite count_Finished_insert by (done || discriminate)).
  all: simpl; intuition lia.
Qed.

Lemma wf_run (h : heap) (sched : list thread) :
  wf (length files) (Client_Files c urls files h sched).
Proof.
  apply (run_invariant (wf (length files))); [apply wf_step|apply wf_start].
Qed.

(** Every step uses up fuel: a batch over [n] files takes at most
    [4 * n + 2] steps, whatever the scheduler does. *)
Lemma step_fuel (t : thread) (s s' : state) :
  step t s = Some s' → fuel (length files) s' < fuel (length files) s.
Proof.
  intros Hstep. unfold fuel. step_inv Hstep.
  all: repeat match goal with
         | H : st_panicked _ = _ |- _ => rewrite H
         | H : st_main _ = _ |- _ => rewrite H
         | H : st_tasks ?s !! ?i = Some ?g |- _ =>
             pose proof (fuel_lookup _ _ _ H);
             try pose proof (fuel_insert _ _ _ Finished H);
             try (match goal with
                  | |- context [<[i := Sending ?e ?d]> _] =>
                      pose proof (fuel_insert _ _ _ (Sending e d) H)
                  end);
             clear H
         end.
  all: rewrite ?fuel_snoc; simpl in *; lia.
Qed.

Lemma fuel_start (h : heap) :
  fuel (length files) (Files_start files h) = 4 * length files + 2.
Proof. unfold fuel. simpl. lia. Qed.

Lemma moves_fuel (sched : list thread) (s : state) :
  moves c urls files sched s ≤ fuel (length files) s.
Proof.
  revert s. induction sched as [|t sched IH]; intros s; simpl; [lia|].
  destruct (step t s) as [s'|] eqn:Hstep; [|apply IH].
  pose proof (step_fuel t s s' Hstep). specialize (IH s'). lia.
Qed.

(** No scheduler makes a batch run on: at most [4 * n + 2] of its picks
    move a thread. *)
Lemma moves_bounded (h : heap) (sched : list thread) :
  moves c urls files sched (Files_start files h) ≤ 4 * length files + 2.
Proof. rewrite <- (fuel_start h). apply moves_fuel. Qed.

(** While the caller has not returned and no goroutine has panicked, some
    thread can move: the caller, or a goroutine whose send has room in the
    channel. *)
Lemma progress (s : state) :
  wf (length files) s → st_panicked s = false →
  (∀ r, st_main s ≠ Returned r) →
  ∃ t s', step t s = Some s'.
Proof.
  intros (Hcap & Hle & Hmain) Hp Hr. unfold step. rewrite Hp.
  destruct (st_main s) as [i|[|k]|r] eqn:Hm; [| | |by destruct (Hr r)].
  - exists Caller. unfold step_caller. rewrite Hm. case_decide; eauto.
  - exists Caller. unfold step_caller. rewrite Hm. eauto.
  - destruct (st_ch s) as [|[e|] q] eqn:Hch.
    + destruct Hmain as (Hlen & Hk & Hcount). simpl in Hcount.
      destruct (count_Finished_pending (st_tasks s)) as (i & g & Hi & Hg); [lia|].
      exists (Goroutine i). unfold step_goroutine. rewrite Hi.
      destruct g as [|e d|]; [| |done].
      * destruct (goroutine_body c urls files i (st_heap s)) as [[|h e d] t]; eauto.
      * rewrite Hch. simpl. case_decide; [eauto|lia].
    + exists Caller. unfold step_caller. rewrite Hm, Hch. eauto.
    + exists Caller. unfold step_caller. rewrite Hm, Hch. eauto.
Qed.

(** From a state where nothing panics from then on, the caller can always
    be brought to its return. *)
Lemma can_return (P : state → Prop) :
  (∀ s, P s → st_panicked s = false) →
  (∀ t s s', P s → step t s = Some s' → P s') →
  ∀ s, wf (length files) s → P s →
    ∃ sched r, st_main (run sched s) = Returned r.
Proof.
  intros Hsafe Hstep s. remember (fuel (length files) s) as m eqn:Hm.
  revert s Hm. induction (lt_wf m) as [m _ IH]. intros s -> Hwf HP.
  assert ((∃ r, st_main s = Returned r) ∨ (∀ r, st_main s ≠ Returned r))
    as [[r Hr]|Hr] by (destruct (st_main s); eauto).
  - by exists [], r.
  - destruct (progress s Hwf (Hsafe s HP) Hr) as (t & s' & Hts).
    destruct (IH _ (step_fuel _ _ _ Hts) s' eq_refl) as (sched & r & Hret);
      [by eapply wf_step|by eapply Hstep|].
    exists (t :: sched), r. by rewrite run_cons, Hts.
Qed.

(** *** The body of a goroutine, path by path *)

Lemma store_Data_eq (h : heap) (l : loc) (p : bytes) :
  Data (store_Data h l p l) = p.
Proof. unfold store_Data. by rewrite decide_True. Qed.

Lemma store_Data_ne (h : heap) (l l' : loc) (p : bytes) :
  l' ≠ l → store_Data h l p l' = h l'.
Proof. intros Hne. unfold store_Data. by rewrite decide_False. Qed.

Lemma Bytes_success (url : string) (resp : Response) :
  http_Get (client c) url = inl resp →
  resp_StatusCode resp = 200%Z →
  broken (resp_Body resp) = None →
  result (Client_Bytes c url) = (delivered (resp_Body resp), None).
Proof.
  intros Hget Hst Hb. unfold_io. rewrite Hget. simpl. rewrite Hst. simpl.
  unfold ReadAll. by rewrite Hb.
Qed.

Lemma body_success (i : nat) (h : heap) (url : string) (l : loc) (resp : Response) :
  urls !! i = Some url → files !! i = Some (Some l) →
  http_Get (client c) url = inl resp →
  resp_StatusCode resp = 200%Z →
  broken (resp_Body resp) = None →
  goroutine_body c urls files i h =
    (Report (store_Data h l (delivered (resp_Body resp))) None [EvClose url],
     [EvGet url]).
Proof.
  intros Hu Hf Hget Hst Hb. unfold goroutine_body. rewrite Hu. unfold_io.
  rewrite Hget. simpl. rewrite Hst. simpl. unfold ReadAll. rewrite Hb, Hf.
  reflexivity.
Qed.

Lemma body_index_panic (i : nat) (h : heap) :
  urls !! i = None → goroutine_body c urls files i h = (Panic, []).
Proof. intros Hu. unfold goroutine_body. by rewrite Hu. Qed.

Lemma body_nil_panic (i : nat) (h : heap) (url : string) (resp : Response) :
  urls !! i = Some url → files !! i = Some None →
  http_Get (client c) url = inl resp →
  resp_StatusCode resp = 200%Z →
  goroutine_body c urls files i h = (Panic, [EvGet url; EvClose url]).
Proof.
  intros Hu Hf Hget Hst. unfold goroutine_body. rewrite Hu. unfold_io.
  rewrite Hget. simpl. rewrite Hst. simpl.
  by destruct (files !! i) as [[l|]|]; simplify_eq.
Qed.

Lemma body_no_panic (i : nat) (h : heap) :
  i < length urls → is_Some (files !! i) → Forall is_Some files →
  result (goroutine_body c urls files i h) ≠ Panic.
Proof.
  intros Hi [p Hp] Hnn.
  destruct (lookup_lt_is_Some_2 urls i Hi) as [url Hu].
  assert (is_Some p) as [l ->].
  { eapply Forall_forall; [done|]. by eapply list_elem_of_lookup_2. }
  unfold goroutine_body. rewrite Hu. unfold_io.
  destruct (http_Get (client c) url) as [resp|text]; simpl; [|done].
  destruct (negb _); simpl; [done|].
  rewrite Hp. by destruct (broken _).
Qed.

Lemma body_error (i : nat) (h h' : heap) (e : error) (d t : list event) :
  goroutine_body c urls files i h = (Report h' (Some e) d, t) →
  batch_error c urls e.
Proof.
  unfold goroutine_body, batch_error.
  destruct (urls !! i) as [url|] eqn:Hu; [|done]. unfold_io.
  destruct (http_Get (client c) url) as [resp|text] eqn:Hget; simpl.
  - intros H. exists i, url. rewrite Hget. split; [done|].
    destruct (negb _); simpl in H.
    + injection H as <- <- <- <-. by eexists.
    + unfold ReadAll in H. destruct (files !! i) as [[l|]|]; try done.
      destruct (broken _); simpl in H; [|done].
      injection H as <- <- <- <-. unfold Client_err. by eexists.
  - intros [= <- <- <- <-]. exists i, url. by rewrite Hget.
Qed.

(** A body that breaks: the bytes read are stored all the same, and the
    error is wrapped by [c.err] with the text of the read error (which
    [c.err] replaces by its default message when it is empty). *)
Lemma body_read_error (i : nat) (h : heap) (url : string) (l : loc)
    (resp : Response) (text : string) :
  urls !! i = Some url → files !! i = Some (Some l) →
  http_Get (client c) url = inl resp →
  resp_StatusCode resp = 200%Z →
  broken (resp_Body resp) = Some text →
  goroutine_body c urls files i h =
    (Report (store_Data h l (delivered (resp_Body resp)))
       (Some (HttpError
                {| Message := if String.eqb text EmptyString
                              then Sprintf_Get (resp_URL resp) 200
                              else text;
                   StatusCode := 200;
                   URL := resp_URL resp |}))
       [EvClose url],
     [EvGet url]).
Proof.
  intros Hu Hf Hget Hst Hb. unfold goroutine_body. rewrite Hu. unfold_io.
  rewrite Hget. simpl. rewrite Hst. simpl. rewrite Hf, Hb. simpl.
  unfold Client_err. by rewrite Hst.
Qed.

(** *** A batch in which every fetch succeeds *)

Section AllSucceed.
Hypothesis Hlen : length files = length urls.
Hypothesis Hnn : Forall is_Some files.
Hypothesis Hnd : NoDup files.
Hypothesis Hok : all_succeed c urls.

Lemma filled_store (h : heap) (i j : nat) (l : loc) (p : bytes) :
  files !! i = Some (Some l) → i ≠ j →
  filled c urls files h j → filled c urls files (store_Data h l p) j.
Proof.
  intros Hi Hij (url & l' & Hu & Hf & Hd). exists url, l'. split_and!; try done.
  rewrite store_Data_ne; [done|]. intros ->. apply Hij.
  by eapply NoDup_lookup.
Qed.

Lemma all_well_start (h : heap) : all_well c urls files (Files_start files h).
Proof. unfold all_well. simpl. split_and!; try done. Qed.

Lemma all_well_step (t : thread) (s s' : state) :
  wf (length files) s → all_well c urls files s → step t s = Some s' →
  all_well c urls files s'.
Proof.
  intros Hwf Hw Hstep. step_inv Hstep.
  all: destruct Hwf as (Hcap & Hle & Hmain), Hw as (Hp & Htasks & Hch & Hret).
  all: unfold all_well; simpl.
  all: try match goal with
           | H : st_main _ = _ |- _ => rewrite H in Hmain, Hret
           end.
  all: try match goal with
           | H : st_ch _ = _ |- _ => rewrite H in Hmain, Hle, Hch
           end.
  - (* a goroutine is launched *)
    split_and!; try done. intros j. specialize (Htasks j).
    destruct (decide (j < length (st_tasks s))) as [Hj|Hj].
    + by rewrite lookup_app_l.
    + rewrite lookup_app_r by lia.
      by destruct (j - length (st_tasks s)) as [|[|?]].
  - done.
  - (* the second loop is over *)
    split_and!; try done. pose proof (count_Finished_le (st_tasks s)). lia.
  - (* an error is received *)
    by apply Forall_cons in Hch as [[=] _].
  - by apply Forall_cons in Hch as [_ Hch].
  - (* the body panics *)
    match goal with H : goroutine_body _ _ _ ?i _ = _ |- _ =>
      apply (f_equal fst) in H; simpl in H; exfalso; revert H;
      apply body_no_panic; [|apply lookup_lt_is_Some_2|done];
      match goal with H' : st_tasks _ !! i = _ |- _ =>
        apply lookup_lt_Some in H'; destruct (st_main s); lia
      end
    end.
  - (* the body is run *)
    match goal with
    | Hi : st_tasks s !! ?i = Some Launched, Hb : goroutine_body _ _ _ _ _ = _ |- _ =>
        rename i into k; rename Hi into Hk; rename Hb into Hbody
    end.
    pose proof (lookup_lt_Some _ _ _ Hk) as Hlt.
    assert (k < length files) as Hkf by (destruct (st_main s); lia).
    destruct (lookup_lt_is_Some_2 urls k) as [url Hu]; [lia|].
    destruct (lookup_lt_is_Some_2 files k Hkf) as [p Hf].
    assert (is_Some p) as [a ->].
    { eapply Forall_forall; [done|]. by eapply list_elem_of_lookup_2. }
    destruct (Hok k url Hu) as (resp & Hget & Hst & Hb).
    rewrite (body_success k (st_heap s) url a resp) in Hbody by done.
    injection Hbody as <- <- <- <-.
    assert (filled c urls files
              (store_Data (st_heap s) a (delivered (resp_Body resp))) k) as Hfill.
    { exists url, a. split_and!; try done.
      by rewrite store_Data_eq, (Bytes_success url resp). }
    split_and!; try done.
    + intros j. specialize (Htasks j).
      destruct (decide (j = k)) as [->|Hjk].
      * by rewrite list_lookup_insert_eq.
      * rewrite list_lookup_insert_ne by done.
        destruct (st_tasks s !! j) as [[| |]|]; try done.
        -- destruct Htasks. split; [done|]. by eapply filled_store.
        -- by eapply filled_store.
    + destruct (st_main s); try done. destruct Hret as [-> Hcount].
      split; [done|].
      erewrite count_Finished_insert by (done || discriminate). simpl. lia.
  - (* the send *)
    match goal with
    | Hi : st_tasks s !! ?i = Some (Sending _ _) |- _ =>
        rename i into k; rename Hi into Hk
    end.
    pose proof (lookup_lt_Some _ _ _ Hk) as Hlt.
    pose proof (Htasks k) as Hk'. rewrite Hk in Hk'. destruct Hk' as [-> Hfill].
    split_and!; try done.
    + intros j. specialize (Htasks j).
      destruct (decide (j = k)) as [->|Hjk].
      * by rewrite list_lookup_insert_eq.
      * by rewrite list_lookup_insert_ne.
    + apply Forall_app. split; [done|]. by apply Forall_singleton.
    + destruct (st_main s); try done. destruct Hret as [-> Hcount].
      exfalso. rewrite (count_Finished_all (st_tasks s) k) in Hk by lia. done.
Qed.

Lemma all_well_run (h : heap) (sched : list thread) :
  all_well c urls files (Client_Files c urls files h sched).
Proof.
  apply (run_invariant (λ s, wf (length files) s ∧ all_well c urls files s)).
  - intros t s s' [Hwf Hw] Hstep. split; [by eapply wf_step|by eapply all_well_step].
  - split; [apply wf_start|apply all_well_start].
Qed.

End AllSucceed.

(** *** Panics *)

Lemma no_panic_step (t : thread) (s s' : state) :
  length files ≤ length urls → Forall is_Some files →
  wf (length files) s → st_panicked s = false → step t s = Some s' →
  st_panicked s' = false.
Proof.
  intros Hlen Hnn Hwf Hp Hstep. step_inv Hstep; try done.
  destruct Hwf as (Hcap & Hle & Hmain).
  match goal with H : goroutine_body _ _ _ ?i _ = _ |- _ =>
    apply (f_equal fst) in H; simpl in H; exfalso; revert H;
    apply body_no_panic; [|apply lookup_lt_is_Some_2|done];
    match goal with H' : st_tasks _ !! i = _ |- _ =>
      apply lookup_lt_Some in H'; destruct (st_main s); lia
    end
  end.
Qed.

Lemma no_panic_run (h : heap) (sched : list thread) :
  length files ≤ length urls → Forall is_Some files →
  st_panicked (Client_Files c urls files h sched) = false.
Proof.
  intros Hlen Hnn.
  apply (run_invariant (λ s, wf (length files) s ∧ st_panicked s = false)).
  - intros t s s' [Hwf Hp] Hstep.
    split; [by eapply wf_step|by eapply no_panic_step].
  - split; [apply wf_start|done].
Qed.

(** The caller's first [k] steps launch the first [k] goroutines. *)
Lemma run_spawn (h : heap) (k : nat) :
  k ≤ length files →
  run (replicate k Caller) (Files_start files h) =
    mkState h [] (length files) (replicate k Launched) (Spawning k) false [].
Proof.
  induction k as [|k IH]; intros Hk; [done|].
  rewrite replicate_S_end, run_app, IH by lia.
  rewrite run_cons, run_nil. unfold step, step_caller. simpl.
  rewrite decide_True by lia. simpl. by rewrite <- replicate_S_end.
Qed.

(** Goroutine [i], run right after it is launched, from the heap [h]. *)
Lemma run_first (h : heap) (i : nat) :
  i < length files →
  st_panicked (Client_Files c urls files h
                 (replicate (S i) Caller ++ [Goroutine i])) =
    match result (goroutine_body c urls files i h) with
    | Panic => true
    | Report _ _ _ => false
    end.
Proof.
  intros Hi. unfold Client_Files. rewrite run_app, run_spawn by lia.
  rewrite run_cons, run_nil. unfold step, step_goroutine. simpl.
  change (Launched :: replicate i Launched) with (replicate (S i) Launched).
  rewrite lookup_replicate_2 by lia.
  by destruct (goroutine_body c urls files i h) as [[|h' e d] t].
Qed.

(** *** The errors a batch can return *)

Lemma errors_explained_start (h : heap) :
  errors_explained c urls (Files_start files h).
Proof.
  unfold errors_explained. simpl. split_and!; try done.
  intros e He. by apply elem_of_nil in He.
Qed.

Lemma errors_explained_step (t : thread) (s s' : state) :
  errors_explained c urls s → step t s = Some s' → errors_explained c urls s'.
Proof.
  intros Hex Hstep. step_inv Hstep.
  all: destruct Hex as (Htasks & Hch & Hret); unfold errors_explained; simpl.
  all: try match goal with
           | H : st_ch _ = _ |- _ => rewrite H in Hch
           end.
  all: split_and!; try done.
  - intros j e d Hj. apply lookup_app_Some in Hj as [Hj|[_ Hj]]; [eauto|].
    by destruct (j - length (st_tasks s)) as [|[|?]].
  - intros e' He. apply Hch, elem_of_cons. by right.
  - intros e' [= <-]. apply Hch, elem_of_cons. by left.
  - intros e' He. apply Hch, elem_of_cons. by right.
  - intros j e' d'. destruct (decide (j = i)) as [->|Hji].
    + rewrite list_lookup_insert_eq by (by eapply lookup_lt_Some).
      intros [= -> ->]. by eapply body_error.
    + rewrite list_lookup_insert_ne by done. eauto.
  - intros j e' d'. destruct (decide (j = i)) as [->|Hji].
    + by rewrite list_lookup_insert_eq by (by eapply lookup_lt_Some).
    + rewrite list_lookup_insert_ne by done. eauto.
  - intros e' [He|He%list_elem_of_singleton]%elem_of_app; [eauto|].
    subst e. eauto.
Qed.

Lemma errors_explained_run (h : heap) (sched : list thread) :
  errors_explained c urls (Client_Files c urls files h sched).
Proof.
  apply (run_invariant (errors_explained c urls));
    [apply errors_explained_step|apply errors_explained_start].
Qed.

End Batch.

(** *** A batch without files *)

Lemma empty_batch_run (c : Client) (urls : list string) (h : heap)
    (sched : list thread) (k : nat) :
  run c urls [] sched (empty_batch h k) = empty_batch h (k + caller_steps sched).
Proof.
  revert k. induction sched as [|t sched IH]; intros k.
  - simpl. by rewrite Nat.add_0_r.
  - rewrite run_cons. destruct t as [|i]; simpl caller_steps.
    + replace (default _ _) with (empty_batch h (S k)) by by destruct k as [|[|k]].
      rewrite IH. f_equal. lia.
    + replace (default _ _) with (empty_batch h k) by by destruct k as [|[|k]].
      apply IH.
Qed.

(** ** The claims about single requests, at the fixture server *)

Lemma String_error (c : Client) (url : string) (str : string) (e : error) :
  result (Client_String c url) = (str, Some e) →
  (is_HttpError e = true ↔ answered_not_200 c url) ∧ str = EmptyString.
Proof.
  unfold answered_not_200. unfold_io.
  destruct (http_Get (client c) url) as [resp|text] eqn:Hget; simpl.
  - destruct (Z.eqb_spec (resp_StatusCode resp) 200) as [Hst|Hst]; simpl.
    + destruct (broken (resp_Body resp)) as [text|]; simpl; intros [= <- <-].
      split; [|done]. split; [done|]. by intros (r & [= <-] & Hne).
    + intros [= <- <-]. split; [|done]. split; [|done]. intros _. by exists resp.
  - intros [= <- <-]. split; [|done]. split; [done|]. by intros (r & [=] & _).
Qed.

Lemma Reader_error (c : Client) (url : string) (r : option ReadCloser) (e : error) :
  result (Client_Reader c url) = (r, Some e) →
  (is_HttpError e = true ↔ answered_not_200 c url) ∧ r = None.
Proof.
  unfold answered_not_200. unfold_io.
  destruct (http_Get (client c) url) as [resp|text] eqn:Hget; simpl.
  - destruct (Z.eqb_spec (resp_StatusCode resp) 200) as [Hst|Hst]; simpl; [done|].
    intros [= <- <-]. split; [|done]. split; [|done]. intros _. by exists resp.
  - intros [= <- <-]. split; [|done]. split; [done|]. by intros (r' & [=] & _).
Qed.

(** C1. The package-level [XML] does not decode XML: it calls the client's
    [JSON]. On the feed of the fixture server, a well-formed XML document
    served with status 200, [XML(url, v)] fails with the JSON syntax error
    and leaves the target as it was, where the client's method [XML]
    decodes the document and succeeds. *)
Theorem C1_Package_XML_decodes_JSON :
  (∀ (V : Type) (D : Decoders V) net url v,
     Package.XML net D url v = Package.JSON net D url v) ∧
  result (Package.XML Fixture.server Fixture.decoders Fixture.url_feed EmptyString) =
    (EmptyString,
     Some (HttpError {| Message := "JSON syntax error at http://files.example/feed";
                        StatusCode := 200;
                        URL := Fixture.url_feed |})) ∧
  result (Client_XML Fixture.decoders (Package.client Fixture.server)
            Fixture.url_feed EmptyString) =
    ("1"%string, None).
Proof. split_and!; [by intros|reflexivity..]. Qed.

(** C2 as stated fails: the GET for [/old] is redirected and answered with
    404 for [/new]; the error of Bytes names [/new], not the URL that was
    requested. *)
Lemma C2_counterexample :
  ∃ resp,
    http_Get Fixture.server Fixture.url_old = inl resp ∧
    resp_StatusCode resp = 404%Z ∧
    resp_StatusCode resp ≠ 200%Z ∧
    snd (result (Client_Bytes (New Fixture.server) Fixture.url_old)) ≠
      Some (status_error Fixture.url_old (resp_StatusCode resp)).
Proof. eexists. split; [reflexivity|]. by split_and!. Qed.

(** C2 at the fixture server: the redirected request. *)
Lemma C2_witness :
  http_Get (client (New Fixture.server)) Fixture.url_old =
    inl (mkResponse 404 Fixture.url_new (mkBody (Fixture.text "not found") None)) ∧
  404%Z ≠ 200%Z ∧
  result (Client_Bytes (New Fixture.server) Fixture.url_old) =
    ([], Some (status_error Fixture.url_new 404)).
Proof.
  split; [reflexivity|]. split; [discriminate|].
  apply (C2_status_error Fixture.decoders (New Fixture.server) Fixture.url_old
           EmptyString
           (mkResponse 404 Fixture.url_new (mkBody (Fixture.text "not found") None)));
    [reflexivity|discriminate].
Defined.

(** C3 as stated fails: the message of the error for a malformed JSON body
    does not include the status code. *)
Lemma C3_counterexample :
  result (Client_JSON Fixture.decoders (New Fixture.server) Fixture.url_feed
            EmptyString) =
    (EmptyString,
     Some (HttpError {| Message := "JSON syntax error at http://files.example/feed";
                        StatusCode := 200;
                        URL := Fixture.url_feed |})) ∧
  contains "JSON syntax error at http://files.example/feed" (itoa 200) = false.
Proof. split; reflexivity. Qed.

(** C3 at the fixture server: the feed, an XML document, read as JSON. *)
Lemma C3_witness :
  http_Get (client (New Fixture.server)) Fixture.url_feed =
    inl (mkResponse 200 Fixture.url_feed (mkBody (Fixture.text "<a>1</a>") None)) ∧
  json_Decode Fixture.decoders (mkBody (Fixture.text "<a>1</a>") None) EmptyString =
    (EmptyString,
     Some (JSyntax "invalid character '<' looking for beginning of value" 1)) ∧
  result (Client_JSON Fixture.decoders (New Fixture.server) Fixture.url_feed
            EmptyString) =
    (EmptyString,
     Some (HttpError {| Message := "JSON syntax error at " +:+ Fixture.url_feed;
                        StatusCode := 200;
                        URL := Fixture.url_feed |})).
Proof.
  split; [reflexivity|]. split; [reflexivity|].
  apply (C3_JSON_syntax_error Fixture.decoders (New Fixture.server)
           Fixture.url_feed EmptyString
           (mkResponse 200 Fixture.url_feed (mkBody (Fixture.text "<a>1</a>") None))
           EmptyString "invalid character '<' looking for beginning of value" 1);
    reflexivity.
Defined.

(** C4 at the fixture server: a text file read as XML. *)
Lemma C4_witness :
  http_Get (client (New Fixture.server)) Fixture.url_a =
    inl (mkResponse 200 Fixture.url_a (mkBody (Fixture.text "alpha") None)) ∧
  result (Client_XML Fixture.decoders (New Fixture.server) Fixture.url_a
            EmptyString) =
    (EmptyString, Some (OtherError "EOF")).
Proof.
  split; [reflexivity|].
  apply (C4_decode_errors_unwrapped Fixture.decoders (New Fixture.server)
           Fixture.url_a EmptyString
           (mkResponse 200 Fixture.url_a (mkBody (Fixture.text "alpha") None))
           eq_refl eq_refl).
  reflexivity.
Defined.

(** C8 as stated fails twice over: an error of the transport is returned
    as it is, not as an [Error]; and Bytes returns the bytes it had read
    together with the error that cut the body short. *)
Lemma C8_counterexample :
  result (Client_Bytes (New Fixture.server) Fixture.url_down) =
    ([], Some (OtherError Fixture.no_such_host)) ∧
  is_HttpError (OtherError Fixture.no_such_host) = false ∧
  result (Client_Bytes (New Fixture.server) Fixture.url_cut) =
    (Fixture.text "par", Some (OtherError "unexpected EOF")).
Proof. by split_and!. Qed.

(** C8 (as amended). When an operation fails, its error is an [Error]
    exactly when the GET was answered with a status other than 200 or, for
    JSON, when the decoder rejected the body with a JSON syntax error; the
    errors of the transport, of the body stream and of the decoders are
    returned as they are: the very error of the transport from all five
    operations, the very read error from Bytes and String, the very
    failure of the decoder from JSON (unless it is a syntax error) and from
    XML. With the error, String returns the empty string
    and Reader no stream; Bytes returns nil or, after a read error, the
    bytes it had read. The error of a batch is the transport's error for
    one of its URLs or an [Error] with the status and request URL of the
    response to one of them. *)
Theorem C8_errors_by_cause {V : Type} (D : Decoders V) (c : Client)
    (url : string) (v : V) :
  (∀ p e, result (Client_Bytes c url) = (p, Some e) →
     (is_HttpError e = true ↔ answered_not_200 c url) ∧
     (p = [] ∨ ∃ resp text, http_Get (client c) url = inl resp ∧
                 broken (resp_Body resp) = Some text ∧
                 e = OtherError text ∧ p = delivered (resp_Body resp))) ∧
  (∀ str e, result (Client_String c url) = (str, Some e) →
     (is_HttpError e = true ↔ answered_not_200 c url) ∧ str = EmptyString) ∧
  (∀ r e, result (Client_Reader c url) = (r, Some e) →
     (is_HttpError e = true ↔ answered_not_200 c url) ∧ r = None) ∧
  (∀ v' e, result (Client_JSON D c url v) = (v', Some e) →
     (is_HttpError e = true ↔
        answered_not_200 c url ∨ rejected_as_JSON D c url v)) ∧
  (∀ v' e, result (Client_XML D c url v) = (v', Some e) →
     (is_HttpError e = true ↔ answered_not_200 c url)) ∧
  (∀ urls files h sched e,
     st_main (Client_Files c urls files h sched) = Returned (Some e) →
     batch_error c urls e) ∧
  (∀ text, http_Get (client c) url = inr text →
     result (Client_Bytes c url) = ([], Some (OtherError text)) ∧
     result (Client_String c url) = (EmptyString, Some (OtherError text)) ∧
     result (Client_Reader c url) = (None, Some (OtherError text)) ∧
     result (Client_JSON D c url v) = (v, Some (OtherError text)) ∧
     result (Client_XML D c url v) = (v, Some (OtherError text))) ∧
  (∀ resp text, http_Get (client c) url = inl resp →
     resp_StatusCode resp = 200%Z →
     broken (resp_Body resp) = Some text →
     result (Client_Bytes c url) =
       (delivered (resp_Body resp), Some (OtherError text)) ∧
     result (Client_String c url) = (EmptyString, Some (OtherError text))) ∧
  (∀ resp v' f, http_Get (client c) url = inl resp →
     resp_StatusCode resp = 200%Z →
     json_Decode D (resp_Body resp) v = (v', Some f) →
     is_SyntaxError (json_error f) = false →
     result (Client_JSON D c url v) = (v', Some (json_error f))) ∧
  (∀ resp v' msg, http_Get (client c) url = inl resp →
     resp_StatusCode resp = 200%Z →
     xml_Decode D (resp_Body resp) v = (v', Some msg) →
     result (Client_XML D c url v) = (v', Some (OtherError msg))).
Proof.
  split_and!.
  - apply Bytes_error.
  - apply String_error.
  - apply Reader_error.
  - apply JSON_error.
  - apply XML_error.
  - intros urls files h sched e.
    apply (errors_explained_run c urls files h sched).
  - intros text Hget. unfold_io. by rewrite Hget.
  - intros resp text Hget Hst Hb. unfold_io. rewrite Hget. simpl.
    rewrite Hst. simpl. unfold ReadAll. by rewrite Hb.
  - intros resp v' f Hget Hst Hdec Hf. unfold_io. rewrite Hget. simpl.
    rewrite Hst. simpl. rewrite Hdec. by destruct f.
  - intros resp v' msg Hget Hst Hdec. unfold_io. rewrite Hget. simpl.
    rewrite Hst. simpl. by rewrite Hdec.
Qed.

(** C8 at the fixture server: String on the redirected request. *)
Lemma C8_witness :
  result (Client_String (New Fixture.server) Fixture.url_old) =
    (EmptyString, Some (status_error Fixture.url_new 404)) ∧
  (is_HttpError (status_error Fixture.url_new 404) = true ↔
     answered_not_200 (New Fixture.server) Fixture.url_old).
Proof.
  split; [reflexivity|].
  destruct (C8_errors_by_cause Fixture.decoders (New Fixture.server)
              Fixture.url_old EmptyString) as (_ & HString & _).
  apply (HString EmptyString (status_error Fixture.url_new 404) eq_refl).
Defined.

(** ** The claims about batches *)

(** After a panic the state is final. *)
Lemma run_panicked (c : Client) (urls : list string) (files : list pointer)
    (sched : list thread) (s : state) :
  st_panicked s = true → run c urls files sched s = s.
Proof.
  intros Hp. induction sched as [|t sched IH]; [done|].
  rewrite run_cons. unfold step. by rewrite Hp.
Qed.

(** The first loop of the caller: each of its steps launches the next
    goroutine until there is one per file, and no other step launches or
    removes one. *)
Lemma spawn_count (c : Client) (urls : list string) (files : list pointer)
    (sched : list thread) (s : state) :
  wf (length files) s →
  st_panicked (run c urls files sched s) = false →
  length (st_tasks (run c urls files sched s)) =
    match st_main s with
    | Spawning i => min (i + caller_steps sched) (length files)
    | _ => length files
    end.
Proof.
  revert s. induction sched as [|t sched IH]; intros s Hwf Hp.
  - simpl. destruct Hwf as (_ & _ & Hmain). destruct (st_main s); lia.
  - rewrite run_cons in Hp |- *.
    destruct (st_panicked s) eqn:Hps.
    { assert (step c urls files t s = None) as Hnone
        by (unfold step; by rewrite Hps).
      rewrite Hnone in Hp. simpl in Hp. rewrite run_panicked in Hp by done.
      congruence. }
    destruct (step c urls files t s) as [s'|] eqn:Hstep; simpl in *.
    + pose proof (wf_step c urls files t s s' Hwf Hstep) as Hwf'.
      rewrite (IH s' Hwf' Hp). destruct Hwf as (_ & _ & Hmain).
      clear IH Hp Hwf'. step_inv Hstep; try lia.
      all: try match goal with
               | H : st_main _ = _ |- _ => rewrite H in Hmain |- *
               end; try lia.
      all: try (destruct (length files); lia).
      all: by destruct (st_main s).
    + rewrite (IH s Hwf Hp). destruct t as [|i]; simpl; [|done].
      unfold step, step_caller in Hstep. rewrite Hps in Hstep.
      destruct (st_main s) as [i|[|k]|r]; try done. by case_decide.
Qed.

(** C5 as stated fails: with three URLs and a nil slice of files (the call
    of the package's download example), [Download] returns nil having
    launched no goroutine at all. *)
Lemma C5_counterexample :
  st_main (Package.Download Fixture.server
             [Fixture.url_golang; Fixture.url_clojure; Fixture.url_erlang] []
             Fixture.blank [Caller; Caller]) = Returned None ∧
  length (st_tasks (Package.Download Fixture.server
                      [Fixture.url_golang; Fixture.url_clojure; Fixture.url_erlang] []
                      Fixture.blank [Caller; Caller])) = 0 ∧
  length [Fixture.url_golang; Fixture.url_clojure; Fixture.url_erlang] = 3.
Proof. by split_and!. Qed.

(** The request of goroutine [i] is the GET for [urls[i]]. *)
Lemma body_trace (c : Client) (urls : list string) (files : list pointer)
    (i : nat) (h : heap) (url : string) :
  urls !! i = Some url →
  ∃ t, snd (goroutine_body c urls files i h) = EvGet url :: t.
Proof.
  intros Hu. unfold goroutine_body. rewrite Hu. unfold_io.
  destruct (http_Get (client c) url) as [resp|text]; simpl; [|by eexists].
  destruct (negb _); simpl; [by eexists|].
  destruct (files !! i) as [[l|]|]; [|by eexists..].
  destruct (broken (resp_Body resp)); simpl; by eexists.
Qed.

(** C5 (as amended). [Files] makes a channel whose capacity is the number
    of files and launches one goroutine per index of the files the caller
    passed in, never more: as long as no goroutine has panicked, the
    number launched is the number of steps the caller has taken, up to the
    number of files, so that the caller's first [len(files)] steps launch
    exactly [len(files)] goroutines, and once it has left its first loop
    that many have been launched. The goroutine at index [i] issues the GET
    for [urls[i]], and there is none for an index beyond the files.
    [Files] allocates no files itself: no step of the caller touches the
    heap; and the number of URLs plays no part in any of this. *)
Theorem C5_goroutines_per_file (c : Client) (urls : list string)
    (files : list pointer) (h : heap) (sched : list thread) :
  let s := Client_Files c urls files h sched in
  st_cap s = length files ∧
  length (st_tasks s) ≤ length files ∧
  match st_main s with
  | Spawning i => length (st_tasks s) = i
  | Draining _ | Returned _ => length (st_tasks s) = length files
  end ∧
  (st_panicked s = false →
   length (st_tasks s) = min (caller_steps sched) (length files)) ∧
  st_tasks (Client_Files c urls files h (replicate (length files) Caller)) =
    replicate (length files) Launched ∧
  (∀ i url s', st_tasks s !! i = Some Launched → urls !! i = Some url →
     step c urls files (Goroutine i) s = Some s' →
     ∃ t, st_trace s' = st_trace s ++ EvGet url :: t) ∧
  (∀ i, length files ≤ i → step c urls files (Goroutine i) s = None) ∧
  (∀ s', step c urls files Caller s = Some s' → st_heap s' = st_heap s).
Proof.
  destruct (wf_run c urls files h sched) as (Hcap & _ & Hmain). simpl.
  assert (length (st_tasks (Client_Files c urls files h sched)) ≤ length files)
    as Hle by (destruct (st_main _); lia).
  split_and!; try done.
  - destruct (st_main _); lia.
  - intros Hp. unfold Client_Files.
    by rewrite (spawn_count c urls files sched _ (wf_start files h) Hp).
  - unfold Client_Files. by rewrite run_spawn.
  - intros i url s' Hi Hu Hstep.
    destruct (body_trace c urls files i
                (st_heap (Client_Files c urls files h sched)) url Hu) as [t Ht].
    unfold step, step_goroutine in Hstep. rewrite Hi in Hstep.
    destruct (st_panicked _); [done|].
    destruct (goroutine_body _ _ _ _ _) as [[|h' e d] t']; simpl in Ht;
      subst t'; injection Hstep as <-; simpl; by eexists.
  - intros i Hi. unfold step, step_goroutine.
    rewrite (lookup_ge_None_2 (st_tasks _) i) by lia. by destruct (st_panicked _).
  - intros s' Hstep. by step_inv Hstep.
Qed.

(** C5 at the fixture server: the caller has taken three steps, a
    goroutine one, and there are two files. *)
Lemma C5_witness :
  st_panicked (Client_Files (New Fixture.server) [Fixture.url_a; Fixture.url_b]
                 [Some 0; Some 1] Fixture.blank
                 [Caller; Goroutine 0; Caller; Caller]) = false ∧
  length (st_tasks (Client_Files (New Fixture.server)
                      [Fixture.url_a; Fixture.url_b] [Some 0; Some 1]
                      Fixture.blank [Caller; Goroutine 0; Caller; Caller])) =
    min (caller_steps [Caller; Goroutine 0; Caller; Caller])
      (length [Some 0; Some 1]).
Proof.
  split; [reflexivity|].
  apply (C5_goroutines_per_file (New Fixture.server)
           [Fixture.url_a; Fixture.url_b] [Some 0; Some 1] Fixture.blank
           [Caller; Goroutine 0; Caller; Caller]).
  reflexivity.
Defined.

(** C6 as stated fails: with no URL and one file, a goroutine is launched
    and panics on [urls[0]]. *)
Lemma C6_counterexample :
  st_tasks (Client_Files (New Fixture.server) [] [Some 0] Fixture.blank
              [Caller; Goroutine 0]) = [Launched] ∧
  st_panicked (Client_Files (New Fixture.server) [] [Some 0] Fixture.blank
                 [Caller; Goroutine 0]) = true ∧
  st_main (Client_Files (New Fixture.server) [] [Some 0] Fixture.blank
             [Caller; Goroutine 0]) ≠ Returned None.
Proof. by split_and!. Qed.

(** C6 (as amended). For an empty list of files, whatever the URLs are,
    [Files] launches no goroutine, issues no request, leaves the heap as it
    was and does not panic; the caller falls through both loops, so that
    after two steps of its own it has returned nil. *)
Theorem C6_no_files_no_goroutines (c : Client) (urls : list string) (h : heap)
    (sched : list thread) :
  let s := Client_Files c urls [] h sched in
  st_tasks s = [] ∧ st_trace s = [] ∧ st_heap s = h ∧ st_panicked s = false ∧
  (∀ r, st_main s = Returned r → r = None) ∧
  (2 ≤ caller_steps sched → st_main s = Returned None).
Proof.
  simpl. unfold Client_Files.
  change (Files_start [] h) with (empty_batch h 0).
  rewrite empty_batch_run. simpl. split_and!; try done.
  - destruct (caller_steps sched) as [|[|k]]; intros r [=]. done.
  - destruct (caller_steps sched) as [|[|k]]; [lia..|done].
Qed.

(** C6 at the fixture server: one URL, no file. *)
Lemma C6_witness :
  2 ≤ caller_steps [Caller; Goroutine 0; Caller] ∧
  st_main (Client_Files (New Fixture.server) [Fixture.url_a] [] Fixture.blank
             [Caller; Goroutine 0; Caller]) = Returned None.
Proof.
  split; [simpl; lia|].
  apply (C6_no_files_no_goroutines (New Fixture.server) [Fixture.url_a]
           Fixture.blank [Caller; Goroutine 0; Caller]).
  simpl. lia.
Defined.

(** C7 as stated fails: for the three URLs of the package's download
    example, all of which can be fetched, and its nil slice of files,
    [Files] returns nil and no slot holds a body. *)
Lemma C7_counterexample :
  all_succeed (New Fixture.server)
    [Fixture.url_golang; Fixture.url_clojure; Fixture.url_erlang] ∧
  st_main (Client_Files (New Fixture.server)
             [Fixture.url_golang; Fixture.url_clojure; Fixture.url_erlang] []
             Fixture.blank [Caller; Caller]) = Returned None ∧
  ¬ ∃ l, ([] : list pointer) !! 0 = Some (Some l) ∧
         Data (st_heap (Client_Files (New Fixture.server)
                          [Fixture.url_golang; Fixture.url_clojure;
                           Fixture.url_erlang] []
                          Fixture.blank [Caller; Caller]) l) =
           fst (result (Client_Bytes (New Fixture.server) Fixture.url_golang)).
Proof.
  split_and!; [|done|by intros (l & [=] & _)].
  intros [|[|[|i]]] url [=]; subst url; eexists; by split_and!.
Qed.

(** Nor is it enough that there are as many files as URLs: two slots that
    hold the same pointer receive both bodies in the one file, and the
    later store wins. *)
Lemma aliased_slots_clobbered (s : state) :
  s = Client_Files (New Fixture.server) [Fixture.url_a; Fixture.url_b]
        [Some 0; Some 0] Fixture.blank
        [Caller; Caller; Goroutine 0; Goroutine 1; Goroutine 0;
         Goroutine 1; Caller; Caller; Caller; Caller] →
  st_main s = Returned None ∧
  fst (result (Client_Bytes (New Fixture.server) Fixture.url_a)) =
    Fixture.text "alpha" ∧
  Data (st_heap s 0) = Fixture.text "bravo".
Proof. intros ->. by split_and!. Qed.

(** C7 (as amended). When the caller passes as many files as URLs, all of
    them non-nil and no two the same pointer, and every URL is answered
    with status 200 and a body that reads to its end, then under every
    schedule no goroutine panics and, once [Files] has returned, it has
    returned nil and the file of each slot [i] holds exactly the bytes
    that Bytes returns for [urls[i]]; and every run can be continued to
    the point where [Files] has returned nil. *)
Theorem C7_slots_hold_bodies (c : Client) (urls : list string)
    (files : list pointer) (h : heap) :
  length files = length urls →
  Forall is_Some files →
  NoDup files →
  all_succeed c urls →
  (∀ sched,
     let s := Client_Files c urls files h sched in
     st_panicked s = false ∧
     ∀ r, st_main s = Returned r →
       r = None ∧
       ∀ i url, urls !! i = Some url →
         ∃ l, files !! i = Some (Some l) ∧
              Data (st_heap s l) = fst (result (Client_Bytes c url))) ∧
  (∀ sched, ∃ sched',
     st_main (Client_Files c urls files h (sched ++ sched')) = Returned None).
Proof.
  intros Hlen Hnn Hnd Hok. split.
  - intros sched s.
    destruct (all_well_run c urls files Hlen Hnn Hnd Hok h sched)
      as (Hp & Htasks & _ & Hret).
    destruct (wf_run c urls files h sched) as (_ & _ & Hmain).
    fold s in Hp, Htasks, Hret, Hmain. split; [done|].
    intros r Hr. rewrite Hr in Hret, Hmain. destruct Hret as [-> Hcount].
    split; [done|]. intros i url Hu.
    pose proof (lookup_lt_Some _ _ _ Hu) as Hi.
    specialize (Htasks i).
    rewrite (count_Finished_all (st_tasks s) i) in Htasks by lia.
    destruct Htasks as (url' & l & Hu' & Hf & Hd). exists l.
    by simplify_eq.
  - intros sched. unfold Client_Files.
    destruct (can_return c urls files
                (λ s, wf (length files) s ∧ all_well c urls files s))
      with (s := run c urls files sched (Files_start files h))
      as (sched' & r & Hr).
    + by intros s (_ & Hp & _).
    + intros t s s' [Hwf Hw] Hstep.
      split; [by eapply wf_step|by eapply all_well_step].
    + apply wf_run.
    + split; [apply wf_run|by apply all_well_run].
    + exists sched'. rewrite run_app, Hr. f_equal.
      pose proof (all_well_run c urls files Hlen Hnn Hnd Hok h (sched ++ sched'))
        as (_ & _ & _ & Hret).
      unfold Client_Files in Hret. rewrite run_app, Hr in Hret. by destruct Hret.
Qed.

(** C7 at the fixture server: two URLs, two files of their own. *)
Lemma C7_witness :
  length [Some 0; Some 1] = length [Fixture.url_a; Fixture.url_b] ∧
  Forall is_Some [Some 0; Some 1] ∧
  NoDup [Some 0; Some 1] ∧
  all_succeed (New Fixture.server) [Fixture.url_a; Fixture.url_b] ∧
  ∀ sched, ∃ sched',
    st_main (Client_Files (New Fixture.server) [Fixture.url_a; Fixture.url_b]
               [Some 0; Some 1] Fixture.blank (sched ++ sched')) =
      Returned None.
Proof.
  set (c := New Fixture.server).
  set (urls := [Fixture.url_a; Fixture.url_b]).
  set (files := [Some 0; Some 1]).
  assert (length files = length urls) as Hlen by reflexivity.
  assert (Forall is_Some files) as Hnn.
  { repeat constructor; by eexists. }
  assert (NoDup files) as Hnd.
  { apply NoDup_cons. split; [|apply NoDup_singleton].
    intros H. apply list_elem_of_singleton in H. discriminate. }
  assert (all_succeed c urls) as Hok.
  { intros [|[|i]] url H; simpl in H; try discriminate;
      injection H as <-; eexists; (split; [reflexivity|]); split; reflexivity. }
  split_and!; try assumption.
  apply (C7_slots_hold_bodies c urls files Fixture.blank Hlen Hnn Hnd Hok).
Defined.

(** C9. [Files] is free of panics, for every client, heap and schedule,
    exactly when there are at least as many URLs as files and no file is
    nil: goroutine [i] indexes [urls[i]] for each index [i] of the files,
    and stores through [files[i]] once its GET is answered with 200. *)
Theorem C9_panic_free_iff (urls : list string) (files : list pointer) :
  (∀ c h sched, st_panicked (Client_Files c urls files h sched) = false) ↔
  length files ≤ length urls ∧ Forall is_Some files.
Proof.
  split.
  - intros Hfree.
    assert (length files ≤ length urls) as Hlen.
    { destruct (decide (length files ≤ length urls)) as [|Hgt]; [done|].
      specialize (Hfree (New Fixture.always_ok) Fixture.blank
                    (replicate (S (length urls)) Caller ++ [Goroutine (length urls)])).
      rewrite run_first in Hfree by lia.
      rewrite body_index_panic in Hfree; [done|].
      by apply lookup_ge_None_2. }
    split; [done|].
    destruct (decide (Forall is_Some files)) as [|Hex]; [done|].
    apply not_Forall_Exists in Hex; [|apply _].
    apply Exists_exists in Hex as (p & Hp & Hnil).
    apply list_elem_of_lookup in Hp as [i Hi].
    assert (p = None) as -> by (destruct p; [destruct Hnil; by eexists|done]).
    pose proof (lookup_lt_Some _ _ _ Hi) as Hlt.
    destruct (lookup_lt_is_Some_2 urls i) as [url Hu]; [lia|].
    specialize (Hfree (New Fixture.always_ok) Fixture.blank
                  (replicate (S i) Caller ++ [Goroutine i])).
    rewrite run_first in Hfree by done.
    by erewrite body_nil_panic in Hfree.
  - intros [Hlen Hnn] c h sched. by apply no_panic_run.
Qed.

(** C9 at the fixture server: two URLs, two files, one of the fetches a
    404. *)
Lemma C9_witness :
  length [Some 0; Some 1] ≤ length [Fixture.url_a; Fixture.url_old] ∧
  Forall is_Some [Some 0; Some 1] ∧
  st_panicked (Client_Files (New Fixture.server)
                 [Fixture.url_a; Fixture.url_old] [Some 0; Some 1]
                 Fixture.blank
                 [Caller; Goroutine 0; Caller; Goroutine 1; Goroutine 0]) = false.
Proof.
  assert (Forall is_Some [Some 0; Some 1]) as Hnn.
  { repeat constructor; by eexists. }
  split; [simpl; lia|]. split; [exact Hnn|].
  apply (C9_panic_free_iff [Fixture.url_a; Fixture.url_old] [Some 0; Some 1]).
  split; [simpl; lia|exact Hnn].
Defined.

(** C10 as stated fails for a read error without text: the goroutine then
    reports the default message of [c.err], "Get {url} -> 200", and not the
    (empty) text of the read error. *)
Lemma C10_counterexample :
  http_Get Fixture.mute Fixture.url_a =
    inl (mkResponse 200 Fixture.url_a
           (mkBody (Fixture.text "par") (Some EmptyString))) ∧
  result (goroutine_body (New Fixture.mute) [Fixture.url_a] [Some 0] 0
            Fixture.blank) =
    Report (store_Data Fixture.blank 0 (Fixture.text "par"))
      (Some (HttpError {| Message := "Get http://files.example/a.txt -> 200";
                          StatusCode := 200;
                          URL := Fixture.url_a |}))
      [EvClose Fixture.url_a] ∧
  ("Get http://files.example/a.txt -> 200" : string) ≠ EmptyString.
Proof. by split_and!. Qed.

(** C10 (as amended). In a batch, a goroutine with a non-nil file whose GET
    is answered with status 200 and whose body breaks while it is read
    stores the bytes it did read and reports an [Error] on the channel:
    its two steps, from any state of a run in which it has been launched,
    put that [Error] at the end of the channel. The message of the [Error]
    is the text of the read error or, when that text is empty, the default
    message of [c.err], "Get {URL} -> 200"; its status (200) and URL are
    those of the response. Bytes, for the same URL, returns the read error
    as it is, with the bytes read. *)
Theorem C10_read_error_wrapped (c : Client) (urls : list string)
    (files : list pointer) (i : nat) (url : string) (l : loc)
    (resp : Response) (text : string) :
  urls !! i = Some url →
  files !! i = Some (Some l) →
  http_Get (client c) url = inl resp →
  resp_StatusCode resp = 200%Z →
  broken (resp_Body resp) = Some text →
  let e := HttpError {| Message := if String.eqb text EmptyString
                                   then Sprintf_Get (resp_URL resp) 200
                                   else text;
                        StatusCode := 200;
                        URL := resp_URL resp |} in
  (∀ h, result (goroutine_body c urls files i h) =
          Report (store_Data h l (delivered (resp_Body resp))) (Some e)
            [EvClose url]) ∧
  (∀ s, st_panicked s = false → st_tasks s !! i = Some Launched →
        ∃ s', step c urls files (Goroutine i) s = Some s' ∧
              st_tasks s' !! i = Some (Sending (Some e) [EvClose url])) ∧
  (∀ h sched,
     st_panicked (Client_Files c urls files h sched) = false →
     st_tasks (Client_Files c urls files h sched) !! i = Some Launched →
     st_ch (Client_Files c urls files h (sched ++ [Goroutine i; Goroutine i])) =
       st_ch (Client_Files c urls files h sched) ++ [Some e] ∧
     st_tasks (Client_Files c urls files h (sched ++ [Goroutine i; Goroutine i]))
       !! i = Some Finished ∧
     Data (st_heap (Client_Files c urls files h
                      (sched ++ [Goroutine i; Goroutine i])) l) =
       delivered (resp_Body resp) ∧
     st_panicked (Client_Files c urls files h
                    (sched ++ [Goroutine i; Goroutine i])) = false) ∧
  is_HttpError e = true ∧
  (text ≠ EmptyString →
   e = HttpError {| Message := text; StatusCode := 200; URL := resp_URL resp |}) ∧
  result (Client_Bytes c url) =
    (delivered (resp_Body resp), Some (OtherError text)) ∧
  is_HttpError (OtherError text) = false.
Proof.
  intros Hu Hf Hget Hst Hb e.
  assert (∀ h, goroutine_body c urls files i h =
            (Report (store_Data h l (delivered (resp_Body resp))) (Some e)
               [EvClose url], [EvGet url])) as Hbody.
  { intros h. by rewrite (body_read_error c urls files i h url l resp text). }
  split_and!; try done.
  - intros h. by rewrite Hbody.
  - intros s Hp Hi. unfold step, step_goroutine. rewrite Hp, Hi, Hbody.
    eexists. split; [done|]. simpl.
    apply list_lookup_insert_eq. by eapply lookup_lt_Some.
  - intros h sched Hp Hi.
    destruct (wf_run c urls files h sched) as (Hcap & Hle & Hmain).
    pose proof (lookup_lt_Some _ _ _ Hi) as Hlt.
    assert (length (st_ch (Client_Files c urls files h sched)) <
              st_cap (Client_Files c urls files h sched)) as Hroom.
    { pose proof (count_Finished_lt _ _ _ Hi ltac:(discriminate)).
      destruct (st_main _); lia. }
    unfold Client_Files in *. rewrite run_app.
    set (s := run c urls files sched (Files_start files h)) in *.
    rewrite run_cons, run_cons, run_nil.
    assert (step c urls files (Goroutine i) s =
              Some (mkState (store_Data (st_heap s) l (delivered (resp_Body resp)))
                      (st_ch s) (st_cap s)
                      (<[i := Sending (Some e) [EvClose url]]> (st_tasks s))
                      (st_main s) false (st_trace s ++ [EvGet url]))) as ->.
    { unfold step, step_goroutine. by rewrite Hp, Hi, Hbody. }
    simpl. unfold step, step_goroutine. simpl.
    rewrite list_lookup_insert_eq by done.
    rewrite decide_True by done. simpl.
    split_and!; try done.
    + apply list_lookup_insert_eq. by rewrite length_insert.
    + apply store_Data_eq.
  - intros Htext. unfold e. by destruct (String.eqb_spec text EmptyString).
  - unfold_io. rewrite Hget. simpl. rewrite Hst. simpl. unfold ReadAll.
    by rewrite Hb.
Qed.

(** C10 at the fixture server: the body that is cut short, fetched by the
    second of two goroutines. *)
Lemma C10_witness :
  [Fixture.url_a; Fixture.url_cut] !! 1 = Some Fixture.url_cut ∧
  [Some 0; Some 1] !! 1 = Some (Some 1) ∧
  http_Get (client (New Fixture.server)) Fixture.url_cut =
    inl (mkResponse 200 Fixture.url_cut
           (mkBody (Fixture.text "par") (Some "unexpected EOF"%string))) ∧
  result (goroutine_body (New Fixture.server) [Fixture.url_a; Fixture.url_cut]
            [Some 0; Some 1] 1 Fixture.blank) =
    Report (store_Data Fixture.blank 1 (Fixture.text "par"))
      (Some (HttpError {| Message := "unexpected EOF"; StatusCode := 200;
                          URL := Fixture.url_cut |}))
      [EvClose Fixture.url_cut].
Proof.
  split; [reflexivity|]. split; [reflexivity|]. split; [reflexivity|].
  apply (C10_read_error_wrapped (New Fixture.server)
           [Fixture.url_a; Fixture.url_cut]
           [Some 0; Some 1] 1 Fixture.url_cut 1
           (mkResponse 200 Fixture.url_cut
              (mkBody (Fixture.text "par") (Some "unexpected EOF"%string)))
           "unexpected EOF");
    reflexivity.
Defined.

(** ** Further properties of single requests *)

Lemma prefix_app_l (x s q : string) :
  String.prefix x s = true → String.prefix x (s +:+ q) = true.
Proof.
  revert s. induction x as [|a x IH]; intros [|b s]; simpl; try done.
  - intros _. by destruct q.
  - destruct (Ascii.ascii_dec a b); [apply IH|done].
Qed.

Lemma contains_app_l (s q x : string) :
  contains s x = true → contains (s +:+ q) x = true.
Proof.
  induction s as [|a s IH].
  - simpl. rewrite orb_false_r. intros Hx. destruct x; [|done].
    by destruct q.
  - change (contains (String a s) x) with
      (String.prefix x (String a s) || contains s x).
    change (contains (String a s +:+ q) x) with
      (String.prefix x (String a s +:+ q) || contains (s +:+ q) x).
    intros [Hp|Hc]%orb_true_iff.
    + by rewrite prefix_app_l.
    + rewrite IH by done. apply orb_true_r.
Qed.

Lemma contains_app_r (p s x : string) :
  contains s x = true → contains (p +:+ s) x = true.
Proof.
  intros Hx. induction p as [|a p IH]; [done|].
  change (contains (String a p +:+ s) x) with
    (String.prefix x (String a (p +:+ s)) || contains (p +:+ s) x).
  rewrite IH. apply orb_true_r.
Qed.

(** X1. Bytes returns a nil error exactly when the GET is answered with
    status 200 and the body reads to its end, and what it then returns is
    the whole body. *)
Theorem X1_Bytes_succeeds_iff (c : Client) (url : string) :
  (snd (result (Client_Bytes c url)) = None ↔
     ∃ resp, http_Get (client c) url = inl resp ∧
             resp_StatusCode resp = 200%Z ∧
             broken (resp_Body resp) = None) ∧
  (∀ p, result (Client_Bytes c url) = (p, None) →
     ∃ resp, http_Get (client c) url = inl resp ∧
             p = delivered (resp_Body resp)).
Proof.
  unfold_io. destruct (http_Get (client c) url) as [resp|text]; simpl.
  - destruct (Z.eqb_spec (resp_StatusCode resp) 200) as [Hst|Hst]; simpl.
    + unfold ReadAll. destruct (broken (resp_Body resp)) as [text|] eqn:Hb; simpl.
      * split; [|done]. split; [done|]. intros (r & [= <-] & _ & Hn). congruence.
      * split; [|intros p [= <-]; by exists resp]. split; [|done].
        intros _. by exists resp.
    + split; [|done]. split; [done|]. by intros (r & [= <-] & Hs & _).
  - split; [|done]. split; [done|]. by intros (r & [=] & _).
Qed.

(** X1 at the fixture server. *)
Lemma X1_witness :
  result (Client_Bytes (New Fixture.server) Fixture.url_a) =
    (Fixture.text "alpha", None) ∧
  ∃ resp, http_Get Fixture.server Fixture.url_a = inl resp ∧
          Fixture.text "alpha" = delivered (resp_Body resp).
Proof.
  split; [reflexivity|].
  apply (X1_Bytes_succeeds_iff (New Fixture.server) Fixture.url_a).
  reflexivity.
Defined.

(** X2. String is Bytes without loss: when Bytes succeeds, String returns
    a string whose bytes are exactly those Bytes returns; when Bytes fails,
    String returns the empty string and the same error; both perform the
    same requests. *)
Theorem X2_String_lossless (c : Client) (url : string) :
  (∀ p, result (Client_Bytes c url) = (p, None) →
     ∃ str, result (Client_String c url) = (str, None) ∧
            String.list_byte_of_string str = p) ∧
  (∀ p e, result (Client_Bytes c url) = (p, Some e) →
     result (Client_String c url) = (EmptyString, Some e)) ∧
  trace (Client_String c url) = trace (Client_Bytes c url).
Proof.
  unfold Client_String, result, trace, bind, ret.
  destruct (Client_Bytes c url) as [[p [e|]] t]; simpl.
  - split_and!; [done| |by rewrite app_nil_r]. by intros p' e' [= <- <-].
  - split_and!; [|done|by rewrite app_nil_r]. intros p' [= <-].
    eexists. split; [done|]. apply String.list_byte_of_string_of_list_byte.
Qed.

(** X2 at the fixture server. *)
Lemma X2_witness :
  result (Client_Bytes (New Fixture.server) Fixture.url_b) =
    (Fixture.text "bravo", None) ∧
  ∃ str, result (Client_String (New Fixture.server) Fixture.url_b) = (str, None) ∧
         String.list_byte_of_string str = Fixture.text "bravo".
Proof.
  split; [reflexivity|].
  apply (X2_String_lossless (New Fixture.server) Fixture.url_b).
  reflexivity.
Defined.

(** X3. Reading the stream that Reader returns to its end gives what Bytes
    gives: the same bytes and the same read error; and where Reader
    returns no stream, Bytes returns nil and Reader's error. *)
Theorem X3_Reader_then_ReadAll (c : Client) (url : string) :
  result (Client_Bytes c url) =
    match result (Client_Reader c url) with
    | (Some body, _) => ReadAll body
    | (None, err) => ([], err)
    end.
Proof.
  unfold_io. destruct (http_Get (client c) url) as [resp|text]; simpl; [|done].
  by destruct (negb _).
Qed.

(** X4. The body of a response is closed on every path of Bytes, String,
    JSON and XML, exactly once and after the one GET; Reader closes it
    when the status is not 200 and leaves it open when it hands the stream
    to the caller; nothing is closed when the transport failed. *)
Theorem X4_bodies_closed {V : Type} (D : Decoders V) (c : Client)
    (url : string) (v : V) :
  match http_Get (client c) url with
  | inr _ =>
      trace (Client_Bytes c url) = [EvGet url] ∧
      trace (Client_String c url) = [EvGet url] ∧
      trace (Client_JSON D c url v) = [EvGet url] ∧
      trace (Client_XML D c url v) = [EvGet url] ∧
      trace (Client_Reader c url) = [EvGet url]
  | inl resp =>
      trace (Client_Bytes c url) = [EvGet url; EvClose url] ∧
      trace (Client_String c url) = [EvGet url; EvClose url] ∧
      trace (Client_JSON D c url v) = [EvGet url; EvClose url] ∧
      trace (Client_XML D c url v) = [EvGet url; EvClose url] ∧
      (if (resp_StatusCode resp =? 200)%Z
       then trace (Client_Reader c url) = [EvGet url] ∧
            result (Client_Reader c url) = (Some (resp_Body resp), None)
       else trace (Client_Reader c url) = [EvGet url; EvClose url] ∧
            fst (result (Client_Reader c url)) = None)
  end.
Proof.
  unfold_io. destruct (http_Get (client c) url) as [resp|text]; simpl; [|done].
  destruct (resp_StatusCode resp =? 200)%Z; simpl; [|done].
  split_and!; try done; case_paths; done.
Qed.

(** X5. When the transport fails, every operation returns the transport's
    error itself, with a nil result and the target left as it was. *)
Theorem X5_transport_error_passed_on {V : Type} (D : Decoders V) (c : Client)
    (url : string) (v : V) (text : string) :
  http_Get (client c) url = inr text →
  result (Client_Bytes c url) = ([], Some (OtherError text)) ∧
  result (Client_String c url) = (EmptyString, Some (OtherError text)) ∧
  result (Client_Reader c url) = (None, Some (OtherError text)) ∧
  result (Client_JSON D c url v) = (v, Some (OtherError text)) ∧
  result (Client_XML D c url v) = (v, Some (OtherError text)).
Proof. intros Hget. unfold_io. by rewrite Hget. Qed.

(** X5 at the fixture server: a host that cannot be resolved. *)
Lemma X5_witness :
  http_Get (client (New Fixture.server)) Fixture.url_down =
    inr Fixture.no_such_host ∧
  result (Client_Reader (New Fixture.server) Fixture.url_down) =
    (None, Some (OtherError Fixture.no_such_host)).
Proof.
  split; [reflexivity|].
  apply (X5_transport_error_passed_on Fixture.decoders (New Fixture.server)
           Fixture.url_down EmptyString Fixture.no_such_host).
  reflexivity.
Defined.

(** X6. After a 200 answer JSON and XML hand back the target as the decoder
    left it, also when the decode failed; they return a nil error exactly
    when the decoder did. *)
Theorem X6_decoded_target {V : Type} (D : Decoders V) (c : Client)
    (url : string) (v : V) (resp : Response) :
  http_Get (client c) url = inl resp →
  resp_StatusCode resp = 200%Z →
  fst (result (Client_JSON D c url v)) = fst (json_Decode D (resp_Body resp) v) ∧
  fst (result (Client_XML D c url v)) = fst (xml_Decode D (resp_Body resp) v) ∧
  (snd (result (Client_JSON D c url v)) = None ↔
     snd (json_Decode D (resp_Body resp) v) = None) ∧
  (snd (result (Client_XML D c url v)) = None ↔
     snd (xml_Decode D (resp_Body resp) v) = None).
Proof.
  intros Hget Hst. unfold_io. rewrite Hget. simpl. rewrite Hst. simpl.
  destruct (json_Decode D (resp_Body resp) v) as [v1 [[m off|m]|]];
    destruct (xml_Decode D (resp_Body resp) v) as [v2 [m'|]]; simpl;
    by split_and!.
Qed.

(** X6 at the fixture server: the feed decodes as XML and not as JSON. *)
Lemma X6_witness :
  http_Get (client (New Fixture.server)) Fixture.url_feed =
    inl (mkResponse 200 Fixture.url_feed (mkBody (Fixture.text "<a>1</a>") None)) ∧
  fst (result (Client_XML Fixture.decoders (New Fixture.server) Fixture.url_feed
                 EmptyString)) =
    fst (xml_Decode Fixture.decoders (mkBody (Fixture.text "<a>1</a>") None)
           EmptyString).
Proof.
  split; [reflexivity|].
  apply (X6_decoded_target Fixture.decoders (New Fixture.server) Fixture.url_feed
           EmptyString
           (mkResponse 200 Fixture.url_feed (mkBody (Fixture.text "<a>1</a>") None)));
    reflexivity.
Defined.

Lemma Sprintf_Get_nonempty (url : string) (status : Z) :
  Sprintf_Get url status ≠ EmptyString.
Proof. done. Qed.

Lemma Client_err_fields (c : Client) (resp : Response) (message : string) (e : Error) :
  Client_err c resp message = HttpError e →
  Message e ≠ EmptyString ∧
  StatusCode e = resp_StatusCode resp ∧ URL e = resp_URL resp.
Proof.
  unfold Client_err. intros [= <-]. simpl. split; [|done].
  by destruct (String.eqb_spec message EmptyString).
Qed.

(** X7. An [Error] returned by a single-request operation never has an
    empty message, and its StatusCode and URL are those of the response
    that was received for the GET. From Bytes, String, Reader and XML its
    StatusCode is never 200; from JSON it is 200 exactly when the error
    stands for a JSON syntax error. *)
Theorem X7_Error_fields {V : Type} (D : Decoders V) (c : Client)
    (url : string) (v : V) (e : Error) :
  (snd (result (Client_Bytes c url)) = Some (HttpError e) ∨
   snd (result (Client_String c url)) = Some (HttpError e) ∨
   snd (result (Client_Reader c url)) = Some (HttpError e) ∨
   snd (result (Client_XML D c url v)) = Some (HttpError e) →
   Message e ≠ EmptyString ∧ StatusCode e ≠ 200%Z ∧
   ∃ resp, http_Get (client c) url = inl resp ∧
           StatusCode e = resp_StatusCode resp ∧ URL e = resp_URL resp) ∧
  (snd (result (Client_JSON D c url v)) = Some (HttpError e) →
   Message e ≠ EmptyString ∧
   (StatusCode e = 200%Z ↔ rejected_as_JSON D c url v) ∧
   ∃ resp, http_Get (client c) url = inl resp ∧
           StatusCode e = resp_StatusCode resp ∧ URL e = resp_URL resp).
Proof.
  unfold rejected_as_JSON. unfold_io.
  destruct (http_Get (client c) url) as [resp|text] eqn:Hget; simpl;
    [|split; [intros [H|[H|[H|H]]]|intros H]; done].
  destruct (Z.eqb_spec (resp_StatusCode resp) 200) as [Hst|Hst]; simpl.
  - split.
    + intros [H|[H|[H|H]]]; try done.
      * unfold ReadAll in H. by destruct (broken (resp_Body resp)).
      * by destruct (broken (resp_Body resp)).
      * by destruct (xml_Decode D (resp_Body resp) v) as [v2 [m|]].
    + destruct (json_Decode D (resp_Body resp) v) as [v1 [[m off|m]|]] eqn:Hdec;
        simpl; intros [= <-]; simpl.
      split; [done|]. split; [|by exists resp].
      split; [|done]. intros _. exists resp, m, off. by rewrite Hdec.
  - assert (∀ o : option error,
              o = Some (Client_err c resp EmptyString) →
              o = Some (HttpError e) →
              Message e ≠ EmptyString ∧ StatusCode e ≠ 200%Z ∧
              ∃ r, (inl resp : Response + string) = inl r ∧
                   StatusCode e = resp_StatusCode r ∧
                   URL e = resp_URL r) as Hcase.
    { intros o -> [= <-]. simpl. split_and!; [done..|]. by exists resp. }
    split.
    + intros [H|[H|[H|H]]]; by eapply Hcase.
    + intros H. destruct (Hcase _ eq_refl H) as (Hm & Hs & Hr).
      split_and!; [done| |done].
      split; [done|]. intros (r & m & off & [= <-] & Hs' & _). done.
Qed.

(** X7 at the fixture server: the 404 behind the redirect. *)
Lemma X7_witness :
  snd (result (Client_Bytes (New Fixture.server) Fixture.url_old)) =
    Some (HttpError (mkError "Get http://files.example/new -> 404" 404
                       Fixture.url_new)) ∧
  StatusCode (mkError "Get http://files.example/new -> 404" 404 Fixture.url_new)
    ≠ 200%Z.
Proof.
  split; [reflexivity|].
  destruct (X7_Error_fields Fixture.decoders (New Fixture.server) Fixture.url_old
              EmptyString
              (mkError "Get http://files.example/new -> 404" 404 Fixture.url_new))
    as [H _].
  apply H. left. reflexivity.
Defined.

(** X8. The text of the error of a failed status check ([Error()] of what
    [c.err] builds for the empty message) names the URL of the response's
    request and the status code in decimal. *)
Theorem X8_status_message (c : Client) (resp : Response) :
  error_text (Client_err c resp EmptyString) =
    "Get " +:+ resp_URL resp +:+ " -> " +:+ itoa (resp_StatusCode resp) ∧
  contains (error_text (Client_err c resp EmptyString)) (resp_URL resp) = true ∧
  contains (error_text (Client_err c resp EmptyString))
    (itoa (resp_StatusCode resp)) = true.
Proof.
  split; [done|].
  change (error_text (Client_err c resp EmptyString)) with
    ("Get " +:+ (resp_URL resp +:+ (" -> " +:+ itoa (resp_StatusCode resp)))).
  split.
  - apply contains_app_r, contains_app_l, contains_refl.
  - apply contains_app_r, contains_app_r, contains_app.
Qed.

(** ** Further properties of batches *)

Lemma error_in_flight_grows (s s' : state) :
  (∀ e, Some e ∈ st_ch s → Some e ∈ st_ch s') →
  (∀ e, st_main s = Returned (Some e) → st_main s' = Returned (Some e)) →
  error_in_flight s → error_in_flight s'.
Proof.
  intros Hch Hmain [[e He]|[e He]]; [left|right]; exists e; eauto.
Qed.

Section MoreBatch.
Variables (c : Client) (urls : list string) (files : list pointer).

Local Abbreviation step := (step c urls files).

(** A nil report comes from a fetch that succeeded. *)
Lemma body_nil_report (i : nat) (h h' : heap) (d t : list event) :
  goroutine_body c urls files i h = (Report h' None d, t) →
  fetched_ok c urls files i.
Proof.
  unfold goroutine_body, fetched_ok.
  destruct (urls !! i) as [url|] eqn:Hu; [|done]. unfold_io.
  destruct (http_Get (client c) url) as [resp|text] eqn:Hget; simpl; [|done].
  destruct (Z.eqb_spec (resp_StatusCode resp) 200) as [Hst|Hst]; simpl; [|done].
  destruct (files !! i) as [[l|]|] eqn:Hf; try done.
  destruct (broken (resp_Body resp)) as [text|] eqn:Hb; simpl; [done|].
  intros _. by exists url, resp, l.
Qed.

(** The body of goroutine [i] leaves the heap as it was or stores into the
    file of its own slot. *)
Lemma body_heap (i : nat) (h h' : heap) (e : option error) (d t : list event) :
  goroutine_body c urls files i h = (Report h' e d, t) →
  h' = h ∨ ∃ l p, files !! i = Some (Some l) ∧ h' = store_Data h l p.
Proof.
  unfold goroutine_body.
  destruct (urls !! i) as [url|] eqn:Hu; [|done]. unfold_io.
  destruct (http_Get (client c) url) as [resp|text] eqn:Hget; simpl;
    [|intros [= <- _ _ _]; by left].
  destruct (negb _); simpl; [intros [= <- _ _ _]; by left|].
  destruct (files !! i) as [[l|]|] eqn:Hf; try done.
  destruct (broken (resp_Body resp)); simpl; intros [= <- _ _ _]; right; eauto.
Qed.

Lemma nil_accounted_start (h : heap) :
  nil_accounted c urls files (Files_start files h).
Proof. unfold nil_accounted. simpl. by split_and!. Qed.

Lemma nil_accounted_step (t : thread) (s s' : state) :
  wf (length files) s → nil_accounted c urls files s → step t s = Some s' →
  nil_accounted c urls files s'.
Proof.
  intros Hwf Hacc Hstep. step_inv Hstep.
  all: destruct Hwf as (Hcap & Hle & Hmain), Hacc as (Hsend & Hfin & Hret).
  all: unfold nil_accounted; simpl.
  all: try match goal with
           | H : st_main _ = _ |- _ => rewrite H in Hmain, Hret
           end.
  all: try match goal with
           | H : st_ch _ = _ |- _ => rewrite H in Hmain, Hle
           end.
  - split_and!; [| |done].
    + intros j d Hj. apply lookup_app_Some in Hj as [Hj|[_ Hj]]; [eauto|].
      by destruct (j - length (st_tasks s)) as [|[|?]].
    + intros j Hj. apply lookup_app_Some in Hj as [Hj|[_ Hj]].
      * destruct (Hfin j Hj) as [?|Hfl]; [by left|right].
        revert Hfl. apply error_in_flight_grows; simpl; [done|congruence].
      * by destruct (j - length (st_tasks s)) as [|[|?]].
  - split_and!; [done| |done].
    intros j Hj. destruct (Hfin j Hj) as [?|Hfl]; [by left|right].
    revert Hfl. apply error_in_flight_grows; simpl; [done|congruence].
  - (* the second loop is over: every goroutine has finished, nothing is
       left in the channel *)
    pose proof (count_Finished_le (st_tasks s)) as Hc.
    assert (st_ch s = []) as Hch by (apply length_zero_iff_nil; lia).
    assert (∀ j, j < length files → fetched_ok c urls files j) as Hall.
    { intros j Hj.
      destruct (Hfin j) as [?|[[e He]|[e He]]]; [|done| |congruence].
      - apply count_Finished_all; lia.
      - rewrite Hch in He. by apply elem_of_nil in He. }
    split_and!; [done| |intros _; split; [lia|done]].
    intros j Hj. left. apply Hall. apply lookup_lt_Some in Hj. lia.
  - split_and!; [done| |done].
    intros j Hj. right. right. by eexists.
  - split_and!; [done| |done].
    intros j Hj. destruct (Hfin j Hj) as [?|[[e He]|[e He]]]; [by left| |congruence].
    right. left. exists e.
    match goal with H : st_ch s = _ |- _ => rewrite H in He end.
    by apply elem_of_cons in He as [[=]|He].
  - by split_and!.
  - match goal with
    | Hi : st_tasks s !! ?i = Some Launched, Hb : goroutine_body _ _ _ _ _ = _ |- _ =>
        rename i into k; rename Hi into Hk; rename Hb into Hbody
    end.
    pose proof (lookup_lt_Some _ _ _ Hk) as Hlt.
    split_and!.
    + intros j d'. destruct (decide (j = k)) as [->|Hjk].
      * rewrite list_lookup_insert_eq by done. intros [= -> ->].
        by eapply body_nil_report.
      * rewrite list_lookup_insert_ne by done. eauto.
    + intros j. destruct (decide (j = k)) as [->|Hjk].
      * by rewrite list_lookup_insert_eq by done.
      * rewrite list_lookup_insert_ne by done. intros Hj.
        destruct (Hfin j Hj) as [?|Hfl]; [by left|right].
        revert Hfl. by apply error_in_flight_grows.
    + intros Hm. destruct (Hret Hm) as [Hcount Hall]. split; [|done].
      erewrite count_Finished_insert by (done || discriminate). simpl. lia.
  - match goal with
    | Hi : st_tasks s !! ?i = Some (Sending _ _) |- _ =>
        rename i into k; rename Hi into Hk
    end.
    pose proof (lookup_lt_Some _ _ _ Hk) as Hlt.
    split_and!.
    + intros j d'. destruct (decide (j = k)) as [->|Hjk].
      * by rewrite list_lookup_insert_eq by done.
      * rewrite list_lookup_insert_ne by done. eauto.
    + intros j. destruct (decide (j = k)) as [->|Hjk].
      * intros _. destruct e as [err|]; [right|left; by eapply Hsend].
        left. exists err. apply elem_of_app. right. by apply list_elem_of_singleton.
      * rewrite list_lookup_insert_ne by done. intros Hj.
        destruct (Hfin j Hj) as [?|Hfl]; [by left|right].
        revert Hfl. apply error_in_flight_grows; simpl; [|done].
        intros e' He'. apply elem_of_app. by left.
    + intros Hm. destruct (Hret Hm) as [Hcount Hall]. exfalso.
      rewrite Hm in Hmain.
      rewrite (count_Finished_all (st_tasks s) k) in Hk by lia. done.
Qed.

Lemma nil_accounted_run (h : heap) (sched : list thread) :
  nil_accounted c urls files (Client_Files c urls files h sched).
Proof.
  apply (run_invariant c urls files
           (λ s, wf (length files) s ∧ nil_accounted c urls files s)).
  - intros t s s' [Hwf Hacc] Hstep.
    split; [by eapply wf_step|by eapply nil_accounted_step].
  - split; [apply wf_start|apply nil_accounted_start].
Qed.

Lemma slots_kept_start (h : heap) :
  slots_kept c urls files (Files_start files h).
Proof. intros i g Hi. done. Qed.

Lemma slots_kept_step (t : thread) (s s' : state) :
  NoDup files →
  slots_kept c urls files s → step t s = Some s' → slots_kept c urls files s'.
Proof.
  intros Hnd Hkept Hstep. step_inv Hstep; unfold slots_kept in *; simpl; try done.
  - intros j g Hj. apply lookup_app_Some in Hj as [Hj|[_ Hj]]; [eauto|].
    destruct (j - length (st_tasks s)) as [|[|?]]; simplify_eq/=. done.
  - match goal with
    | Hi : st_tasks s !! ?i = Some Launched, Hb : goroutine_body _ _ _ _ _ = _ |- _ =>
        rename i into k; rename Hi into Hk; rename Hb into Hbody
    end.
    pose proof (lookup_lt_Some _ _ _ Hk) as Hlt.
    intros j g. destruct (decide (j = k)) as [->|Hjk].
    + rewrite list_lookup_insert_eq by done. intros _ _ Hok.
      destruct Hok as (url & resp & a & Hu & Hf & Hget & Hst & Hb).
      rewrite (body_success c urls files k (st_heap s) url a resp) in Hbody by done.
      injection Hbody as <- _ _ _. exists url, a. split_and!; try done.
      by rewrite store_Data_eq, (Bytes_success c url resp).
    + rewrite list_lookup_insert_ne by done. intros Hj Hg Hok.
      specialize (Hkept j g Hj Hg Hok).
      destruct (body_heap _ _ _ _ _ _ Hbody) as [->|(a & p & Hf & ->)]; [done|].
      by eapply (filled_store c urls files Hnd).
  - match goal with
    | Hi : st_tasks s !! ?i = Some (Sending _ _) |- _ =>
        rename i into k; rename Hi into Hk
    end.
    pose proof (lookup_lt_Some _ _ _ Hk) as Hlt.
    intros j g. destruct (decide (j = k)) as [->|Hjk].
    + rewrite list_lookup_insert_eq by done. intros _ _ Hok.
      by eapply Hkept.
    + rewrite list_lookup_insert_ne by done. eauto.
Qed.

Lemma slots_kept_run (h : heap) (sched : list thread) :
  NoDup files → slots_kept c urls files (Client_Files c urls files h sched).
Proof.
  intros Hnd. apply (run_invariant c urls files (slots_kept c urls files)).
  - intros t s s' Hkept Hstep. by eapply slots_kept_step.
  - apply slots_kept_start.
Qed.

End MoreBatch.

(** X9. A goroutine of a batch never waits, whatever the caller has done:
    as long as no goroutine has panicked, every goroutine that has not
    finished can take its next step, its send included, because the
    channel has room for one value per goroutine. There is no cancellation:
    this also holds after [Files] has returned. *)
Theorem X9_goroutines_never_wait (c : Client) (urls : list string)
    (files : list pointer) (h : heap) (sched : list thread) (i : nat)
    (g : goroutine) :
  st_panicked (Client_Files c urls files h sched) = false →
  st_tasks (Client_Files c urls files h sched) !! i = Some g →
  g ≠ Finished →
  is_Some (step c urls files (Goroutine i) (Client_Files c urls files h sched)) ∧
  length (st_ch (Client_Files c urls files h sched)) <
    st_cap (Client_Files c urls files h sched).
Proof.
  intros Hp Hi Hg.
  destruct (wf_run c urls files h sched) as (Hcap & Hle & Hmain).
  pose proof (count_Finished_lt _ _ _ Hi Hg) as Hlt.
  assert (length (st_tasks (Client_Files c urls files h sched)) ≤ length files)
    as Hn by (destruct (st_main _); lia).
  split; [|lia].
  unfold step, step_goroutine. rewrite Hp, Hi. destruct g as [|e d|]; [| |done].
  - by destruct (goroutine_body _ _ _ _ _) as [[|h' e d] t].
  - rewrite decide_True by lia. done.
Qed.

(** X9 at the fixture server: after the caller has returned the error of
    the first goroutine, the second still runs. *)
Lemma X9_witness :
  st_main (Client_Files (New Fixture.server) [Fixture.url_old; Fixture.url_a]
             [Some 0; Some 1] Fixture.blank
             [Caller; Caller; Goroutine 0; Goroutine 0; Caller; Caller]) =
    Returned (Some (status_error Fixture.url_new 404)) ∧
  is_Some (step (New Fixture.server) [Fixture.url_old; Fixture.url_a]
             [Some 0; Some 1] (Goroutine 1)
             (Client_Files (New Fixture.server) [Fixture.url_old; Fixture.url_a]
                [Some 0; Some 1] Fixture.blank
                [Caller; Caller; Goroutine 0; Goroutine 0; Caller; Caller])).
Proof.
  split; [reflexivity|].
  apply (X9_goroutines_never_wait (New Fixture.server)
           [Fixture.url_old; Fixture.url_a] [Some 0; Some 1] Fixture.blank
           [Caller; Caller; Goroutine 0; Goroutine 0; Caller; Caller] 1 Launched);
    [reflexivity|reflexivity|discriminate].
Defined.

(** X10. A batch neither deadlocks nor runs on: while no goroutine has
    panicked and the caller has not returned, some thread can move; and
    under any scheduler at most [4 * len(files) + 2] picks move a thread. *)
Theorem X10_no_deadlock_bounded (c : Client) (urls : list string)
    (files : list pointer) (h : heap) (sched : list thread) :
  (st_panicked (Client_Files c urls files h sched) = false →
   (∀ r, st_main (Client_Files c urls files h sched) ≠ Returned r) →
   ∃ t s', step c urls files t (Client_Files c urls files h sched) = Some s') ∧
  moves c urls files sched (Files_start files h) ≤ 4 * length files + 2.
Proof.
  split.
  - apply progress, wf_run.
  - rewrite <- (fuel_start files h). apply moves_fuel.
Qed.

(** X10 at the fixture server: the caller waits on the channel, the
    goroutine can move. *)
Lemma X10_witness :
  ∃ t s', step (New Fixture.server) [Fixture.url_a] [Some 0] t
            (Client_Files (New Fixture.server) [Fixture.url_a] [Some 0]
               Fixture.blank [Caller; Caller]) = Some s'.
Proof.
  apply (X10_no_deadlock_bounded (New Fixture.server) [Fixture.url_a] [Some 0]
           Fixture.blank [Caller; Caller]).
  - reflexivity.
  - intros r. discriminate.
Defined.

(** X11. [Files] returns nil only if every goroutine's fetch succeeded:
    for each index of the files there is a URL and a non-nil file, the GET
    was answered with 200 and the body read to its end. No condition on
    the inputs is needed. *)
Theorem X11_nil_only_if_all_fetched (c : Client) (urls : list string)
    (files : list pointer) (h : heap) (sched : list thread) (i : nat) :
  st_main (Client_Files c urls files h sched) = Returned None →
  i < length files →
  fetched_ok c urls files i.
Proof.
  intros Hm Hi.
  destruct (nil_accounted_run c urls files h sched) as (_ & _ & Hret).
  by apply Hret.
Qed.

(** X11 at the fixture server. *)
Lemma X11_witness :
  st_main (Client_Files (New Fixture.server) [Fixture.url_a; Fixture.url_b]
             [Some 0; Some 1] Fixture.blank
             [Caller; Caller; Caller; Goroutine 1; Goroutine 0; Goroutine 0;
              Goroutine 1; Caller; Caller; Caller]) = Returned None ∧
  fetched_ok (New Fixture.server) [Fixture.url_a; Fixture.url_b]
    [Some 0; Some 1] 1.
Proof.
  split; [reflexivity|].
  apply (X11_nil_only_if_all_fetched (New Fixture.server)
           [Fixture.url_a; Fixture.url_b] [Some 0; Some 1] Fixture.blank
           [Caller; Caller; Caller; Goroutine 1; Goroutine 0; Goroutine 0;
            Goroutine 1; Caller; Caller; Caller] 1);
    [reflexivity|simpl; lia].
Defined.

(** X12. When no two files are the same pointer, a nil from [Files] means
    that every slot is filled: for each index [i] of the files,
    [files[i].Data] holds the bytes Bytes returns for [urls[i]]. *)
Theorem X12_nil_means_slots_filled (c : Client) (urls : list string)
    (files : list pointer) (h : heap) (sched : list thread) (i : nat) :
  NoDup files →
  st_main (Client_Files c urls files h sched) = Returned None →
  i < length files →
  ∃ url l, urls !! i = Some url ∧ files !! i = Some (Some l) ∧
    Data (st_heap (Client_Files c urls files h sched) l) =
      fst (result (Client_Bytes c url)).
Proof.
  intros Hnd Hm Hi.
  destruct (nil_accounted_run c urls files h sched) as (_ & _ & Hret).
  destruct (Hret Hm) as [Hcount Hall].
  destruct (wf_run c urls files h sched) as (_ & _ & Hmain).
  rewrite Hm in Hmain.
  apply (slots_kept_run c urls files h sched Hnd i Finished); [|done|by apply Hall].
  apply count_Finished_all; lia.
Qed.

(** X12 at the fixture server. *)
Lemma X12_witness :
  NoDup [Some 0; Some 1] ∧
  ∃ url l, [Fixture.url_a; Fixture.url_b] !! 0 = Some url ∧
    [Some 0; Some 1] !! 0 = Some (Some l) ∧
    Data (st_heap (Client_Files (New Fixture.server)
                     [Fixture.url_a; Fixture.url_b] [Some 0; Some 1]
                     Fixture.blank
                     [Caller; Caller; Caller; Goroutine 1; Goroutine 0;
                      Goroutine 0; Goroutine 1; Caller; Caller; Caller]) l) =
      fst (result (Client_Bytes (New Fixture.server) url)).
Proof.
  assert (NoDup [Some 0; Some 1]) as Hnd.
  { apply NoDup_cons. split; [|apply NoDup_singleton].
    intros H. apply list_elem_of_singleton in H. discriminate. }
  split; [exact Hnd|].
  apply (X12_nil_means_slots_filled (New Fixture.server)
           [Fixture.url_a; Fixture.url_b] [Some 0; Some 1] Fixture.blank
           [Caller; Caller; Caller; Goroutine 1; Goroutine 0; Goroutine 0;
            Goroutine 1; Caller; Caller; Caller] 0 Hnd);
    [reflexivity|simpl; lia].
Defined.

(** ** The example programs *)

(** X13. The download example downloads nothing: whatever the network
    answers and however its threads are scheduled, it issues no request
    and never ends in [log.Fatal]; once [main] has taken the two steps
    that fall through the loops of [Download], it prints its message of
    success. *)
Theorem X13_download_example (net : http_Client) (h : heap)
    (sched : list thread) :
  snd (Examples.download net h sched) = [] ∧
  (∀ err, fst (Examples.download net h sched) ≠ Fatal err) ∧
  (2 ≤ caller_steps sched →
   fst (Examples.download net h sched) = Printed "Download files success!").
Proof.
  unfold Examples.download, Package.Download, Client_Files.
  change (Files_start [] h) with (empty_batch h 0).
  rewrite empty_batch_run. simpl.
  split_and!; [done| |].
  - intros err. by destruct (caller_steps sched) as [|[|k]].
  - intros Hk. destruct (caller_steps sched) as [|[|k]]; [lia..|done].
Qed.

(** X13 at a network where no host can be reached. *)
Lemma X13_witness :
  2 ≤ caller_steps [Caller; Caller] ∧
  fst (Examples.download (mkHttp (λ _, inr Fixture.no_such_host)) Fixture.blank
         [Caller; Caller]) = Printed "Download files success!".
Proof.
  split; [simpl; lia|].
  apply (X13_download_example (mkHttp (λ _, inr Fixture.no_such_host))
           Fixture.blank [Caller; Caller]).
  simpl. lia.
Defined.

(** X14. The string example prints only a body that was answered with 200
    and read to its end, and the line it prints is the literal [%s], a
    space and the body; it ends in [log.Fatal] with exactly the error of
    [String] otherwise, and performs the requests of [String]. *)
Theorem X14_string_example (net : http_Client) (url : string) :
  (∀ line, result (Examples.string_main net url) = Printed line →
     ∃ resp, http_Get net url = inl resp ∧
             resp_StatusCode resp = 200%Z ∧
             broken (resp_Body resp) = None ∧
             line = "%s " +:+ String.string_of_list_byte (delivered (resp_Body resp))) ∧
  (∀ err, result (Examples.string_main net url) = Fatal err ↔
          snd (result (Package.String net url)) = Some err) ∧
  result (Examples.string_main net url) ≠ Running ∧
  trace (Examples.string_main net url) = trace (Package.String net url).
Proof.
  unfold Examples.string_main, Package.String, Package.client. unfold_io.
  destruct (http_Get net url) as [resp|text]; simpl.
  - destruct (Z.eqb_spec (resp_StatusCode resp) 200) as [Hst|Hst]; simpl.
    + destruct (broken (resp_Body resp)) as [text|] eqn:Hb; simpl.
      * split_and!; try done. intros err. split; by intros [= <-].
      * split_and!; try done. intros line [= <-]. by exists resp.
    + split_and!; try done. intros err. split; by intros [= <-].
  - split_and!; try done. intros err. split; by intros [= <-].
Qed.

(** X14 at the fixture server. *)
Lemma X14_witness :
  result (Examples.string_main Fixture.server Fixture.url_a) = Printed "%s alpha" ∧
  ∃ resp, http_Get Fixture.server Fixture.url_a = inl resp ∧
          resp_StatusCode resp = 200%Z ∧
          broken (resp_Body resp) = None ∧
          ("%s alpha" : string) =
            "%s " +:+ String.string_of_list_byte (delivered (resp_Body resp)).
Proof.
  split; [reflexivity|].
  apply (X14_string_example Fixture.server Fixture.url_a).
  reflexivity.
Defined.

End httpclient.
